(** * The artifact-caching retrieval layer of [dashboard.py]

    A shallow embedding of the fetch functions of the dashboard
    ([set_gauge], [graph_features_global_impact],
    [graph_features_local_impact], [graph_feature], [bivar] and the three
    JSON loaders) as programs of a state-and-exception monad over a world
    made of the scratch directory [./data/tmp/] and the log of the HTTP
    calls issued through [requests.get].

    Conventions of the model:
    - a Python [int] is a [Z]; [str(n)] is the decimal rendering [str_int];
    - a Python [float] is an IEEE value of [SpecFloat.spec_float], compared
      with [SFleb];
    - the scratch directory, which the module creates when it is loaded, is
      a finite map from the paths of its files to their contents;
    - the call log is a ghost component: it records, in order, the
      arguments of every [requests.get] that was run, so that remote calls
      can be counted;
    - the remote service is an arbitrary function [server] from the calls
      made so far and the present call to what [requests.get] does: raise,
      or return a response whose raw stream may itself break off;
      [shutil.copyfileobj] reads that stream block by block, and a block
      that the stream breaks off in is never written;
    - [st.cache], which decorates two of the loaders, is an arbitrary
      function [st_cache_holds] that tells whether it answers a call in
      place of the body;
    - the process-wide lists [features_list], [cat_col] and [num_col] are
      section variables: they are loaded once and never mutated. *)

From Stdlib Require Import ZArith List String Ascii Decimal DecimalString
  DecimalNat DecimalZ DecimalPos SpecFloat QArith Qpower Lqa.
From stdpp Require Import base gmap strings list.

Set Warnings "-register-all".

(** ** Python values *)

(** [str(n)] for an [int]: decimal digits, a leading minus sign for a
    negative number, ["0"] for zero. *)
Definition str_int (z : Z) : string := NilZero.string_of_int (Z.to_int z).

(** The values [r.json()] can produce. A JSON object is kept as the list of
    its members in document order; Python's [dict] keeps the last of several
    members with one name. *)
Inductive Json : Type :=
  | JNull
  | JBool (b : bool)
  | JInt (n : Z)
  | JFloat (f : spec_float)
  | JStr (s : string)
  | JList (l : list Json)
  | JObj (members : list (string * Json)).

(** Exceptions the modelled statements can raise. [Timeout] and
    [Unreachable] are the two ways a network exchange breaks. *)
Inductive net_error : Type := Timeout | Unreachable.

Inductive exn : Type :=
  | ValueError        (* list.index(x): x not in list *)
  | KeyError          (* d[k]: k not in d *)
  | TypeError         (* subscript or comparison on a wrong type *)
  | JSONDecodeError   (* r.json() on a body that is not JSON *)
  | NetError (e : net_error).

Inductive Result (A : Type) : Type :=
  | Ok (a : A)
  | Raise (e : exn).
Arguments Ok {A} a.
Arguments Raise {A} e.

(** ** HTTP calls and what the remote service answers *)

(** A value of the [params] dictionary of a call. *)
Inductive pval : Type :=
  | PInt (n : Z)
  | PStr (s : string)
  | PBool (b : bool).

(** The arguments of one [requests.get(url, stream=..., params=...,
    timeout=...)]; an argument left out is the default of [requests]:
    [stream=False], no parameters, [timeout=None] (wait without bound). *)
Record HttpCall : Type := mkCall {
  call_url : string;
  call_stream : bool;
  call_params : list (string * pval);
  call_timeout : option Z
}.

(** What the code reads of a response: its status, its body decoded as JSON
    (when it is JSON), and its raw stream: the bytes that arrive, and how
    the stream ends, at end of file ([None]) or by a failure after those
    bytes ([Some e]). *)
Record Response : Type := mkResponse {
  status_code : Z;
  resp_json : option Json;
  raw_bytes : list Byte.byte;
  raw_end : option net_error
}.

Inductive HttpOutcome : Type :=
  | Raised (e : net_error)      (* requests.get raises *)
  | Returned (r : Response).    (* requests.get returns r *)

(** ** The world: scratch directory and call log *)

Record World : Type := mkWorld {
  files : gmap string (list Byte.byte);
  calls : list HttpCall
}.

Definition set_files (fs : gmap string (list Byte.byte)) (w : World) : World :=
  mkWorld fs (calls w).

Definition log_call (c : HttpCall) (w : World) : World :=
  mkWorld (files w) (calls w ++ [c]).

(** ** The monad of statements *)

Definition M (A : Type) : Type := World -> Result A * World.

Definition ret {A} (a : A) : M A := fun w => (Ok a, w).

Definition raise {A} (e : exn) : M A := fun w => (Raise e, w).

Definition bind {A B} (m : M A) (k : A -> M B) : M B :=
  fun w =>
    match m w with
    | (Ok a, w') => k a w'
    | (Raise e, w') => (Raise e, w')
    end.

Definition lift {A} (r : Result A) : M A := fun w => (r, w).

Notation "x <- m ;; k" := (bind m (fun x => k))
  (at level 100, m at next level, right associativity).
Notation "m ;;; k" := (bind m (fun _ => k))
  (at level 100, right associativity).

(** ** Python and library primitives *)

(** [l.index(x)]: position of the first element equal to [x]. *)
Fixpoint list_index (l : list string) (x : string) : option nat :=
  match l with
  | [] => None
  | y :: l' =>
      if String.eqb y x then Some 0
      else option_map S (list_index l' x)
  end.

Definition index (l : list string) (x : string) : M Z :=
  match list_index l x with
  | Some i => ret (Z.of_nat i)
  | None => raise ValueError
  end.

(** [x in l] on a list of strings. *)
Definition py_in (x : string) (l : list string) : bool :=
  existsb (String.eqb x) l.

(** [d[k]] on a decoded JSON object: the last member named [k]. *)
Fixpoint dict_get (members : list (string * Json)) (k : string) : option Json :=
  match members with
  | [] => None
  | (k', v) :: rest =>
      match dict_get rest k with
      | Some v' => Some v'
      | None => if String.eqb k' k then Some v else None
      end
  end.

(** [j[k]] with a string [k]: only a dict can be subscripted by a string. *)
Definition subscript (j : Json) (k : string) : Result Json :=
  match j with
  | JObj members =>
      match dict_get members k with
      | Some v => Ok v
      | None => Raise KeyError
      end
  | _ => Raise TypeError
  end.

(** [r.json()]. *)
Definition json (r : Response) : Result Json :=
  match resp_json r with
  | Some j => Ok j
  | None => Raise JSONDecodeError
  end.

(** The float [0.5] in binary64: mantissa [2^52], exponent [-53]. *)
Definition half : spec_float := S754_finite false 4503599627370496 (-53).

(** The rational number that the finite float of sign [s], mantissa [m] and
    exponent [e] stands for. *)
Definition finite_value (s : bool) (m : positive) (e : Z) : Q :=
  ((if s then -1 else 1) * inject_Z (Z.pos m) * 2 ^ e)%Q.

(** The float [f] is, as a number, at least one half: never for a NaN or a
    zero, for the positive infinity only, and for a finite float by its
    value. *)
Definition at_least_half (f : spec_float) : Prop :=
  match f with
  | S754_zero _ => False
  | S754_infinity s => s = false
  | S754_nan => False
  | S754_finite s m e => (1 # 2 <= finite_value s m e)%Q
  end.

(** [x >= 0.5]. A float is compared by IEEE rules (false on NaN), an [int]
    exactly, a [bool] as the int it is; anything else has no order with a
    float. *)
Definition ge_half (x : Json) : Result bool :=
  match x with
  | JFloat f => Ok (SFleb half f)
  | JInt n => Ok (1 <=? n)%Z
  | JBool b => Ok b
  | _ => Raise TypeError
  end.

(** [os.path.exists(p)]. *)
Definition os_path_exists (p : string) : M bool :=
  fun w => (Ok (bool_decide (is_Some (files w !! p))), w).

(** [open(p, 'wb')]: the file is created, or truncated, at once; the handle
    is modelled by the path. *)
Definition open_wb (p : string) : M string :=
  fun w => (Ok p, set_files (<[p := []]> (files w)) w).

(** [shutil.COPY_BUFSIZE], the size of the blocks that [copyfileobj]
    reads: 64 KiB on a POSIX system. *)
Definition COPY_BUFSIZE : N := 65536.

(** [r.raw.read(amt)] on a stream of which the bytes [arriving] are still
    to come before it ends as [ending]. A read returns when [amt] bytes
    have come, or at the end of the stream with what is left (nothing, at
    the very end); a stream that breaks off makes the read under way
    raise, and the bytes that had come for that read are lost with it.
    The result is the block read and what is still to come. *)
Definition raw_read (amt : N) (arriving : list Byte.byte)
    (ending : option net_error)
    : Result (list Byte.byte * list Byte.byte) :=
  if (amt <=? N.of_nat (length arriving))%N then
    Ok (take (N.to_nat amt) arriving, drop (N.to_nat amt) arriving)
  else
    match ending with
    | None => Ok (arriving, [])
    | Some e => Raise (NetError e)
    end.

(** [f.write(buf)]: the block is appended to the file. *)
Definition file_write (f : string) (buf : list Byte.byte) : M unit :=
  fun w =>
    let old := default [] (files w !! f) in
    (Ok tt, set_files (<[f := old ++ buf]> (files w)) w).

(** The loop of [shutil.copyfileobj]: read a block, stop on an empty one,
    write it, again. Every turn but the last takes at least one byte, so
    one turn more than there are bytes is fuel enough. *)
Fixpoint copy_blocks (fuel : nat) (amt : N) (arriving : list Byte.byte)
    (ending : option net_error) (f : string) : M unit :=
  match fuel with
  | 0 => ret tt
  | S fuel' =>
      match raw_read amt arriving ending with
      | Raise e => raise e
      | Ok (buf, rest) =>
          match buf with
          | [] => ret tt
          | _ :: _ => file_write f buf ;;; copy_blocks fuel' amt rest ending f
          end
      end
  end.

(** [shutil.copyfileobj(r.raw, f)]. When the stream breaks off, the
    exception of the read leaves the [with] block, which closes the file
    with the blocks written so far. *)
Definition copyfileobj (r : Response) (f : string) : M unit :=
  copy_blocks (S (length (raw_bytes r))) COPY_BUFSIZE
              (raw_bytes r) (raw_end r) f.

(** Of [n] bytes, how many make whole blocks of [amt]. *)
Definition whole_blocks (amt : N) (n : nat) : nat :=
  N.to_nat (N.of_nat n / amt * amt).

(** What [copyfileobj] has written of the response [r] when it ends: the
    whole body when the stream reached its end, and of a stream that broke
    off the whole blocks only. *)
Definition copied (r : Response) : list Byte.byte :=
  match raw_end r with
  | None => raw_bytes r
  | Some _ =>
      take (whole_blocks COPY_BUFSIZE (length (raw_bytes r))) (raw_bytes r)
  end.

(** ** Module-level constants of [dashboard.py] *)

Definition data_path : string := "./data/".
Definition tmp : string := data_path +:+ "tmp/".
Definition url_server : string := "https://ocp7-dbbackend.herokuapp.com".
Definition timeout : Z := 30.

(** The figure built by [go.Figure(go.Indicator(...))]: of its arguments
    only [value] and the title text depend on the score. *)
Record Figure : Type := mkFigure {
  fig_value : Json;
  fig_title : string
}.

(** ** Paths and calls, as the fetchers build them *)

Definition gfgi_path (max_feat : Z) : string :=
  tmp +:+ "gfgi_" +:+ str_int max_feat +:+ ".png".

Definition gfli_path (client_id max_feat : Z) : string :=
  tmp +:+ "gfli_" +:+ str_int client_id +:+ "_" +:+ str_int max_feat
      +:+ ".png".

Definition feature_path (client_id f_idx : Z) : string :=
  tmp +:+ "feature_" +:+ str_int client_id +:+ "_" +:+ str_int f_idx
      +:+ ".png".

Definition bivar_path (f1_idx f2_idx : Z) : string :=
  tmp +:+ "bivar" +:+ str_int f1_idx +:+ "_" +:+ str_int f2_idx +:+ ".png".

Definition gfgi_call (max_feat : Z) : HttpCall :=
  mkCall (url_server +:+ "/global_impact") true
         [("max_feat", PInt max_feat)] (Some timeout).

Definition gfli_call (client_id max_feat : Z) : HttpCall :=
  mkCall (url_server +:+ "/" +:+ str_int client_id +:+ "/local_impact") true
         [("max_feat", PInt max_feat)] (Some timeout).

Definition feature_call (client_id : Z) (feature : string) : HttpCall :=
  mkCall (url_server +:+ "/" +:+ str_int client_id +:+ "/feature") true
         [("feature", PStr feature)] (Some timeout).

Definition bivar_call (feature_1 feature_2 : string) : HttpCall :=
  mkCall (url_server +:+ "/graph_bivar") true
         [("feature_1", PStr feature_1); ("feature_2", PStr feature_2)]
         (Some 60%Z).

Definition score_call (client_id : Z) : HttpCall :=
  mkCall (url_server +:+ "/" +:+ str_int client_id) false [] None.

(** The world after a miss on [p] answered by the response [r] to the call
    [c]: one more call in the log, and what was copied of [r] at [p]. *)
Definition stored (p : string) (c : HttpCall) (r : Response) (w : World)
    : World :=
  mkWorld (<[p := copied r]> (files w)) (calls w ++ [c]).

(** What a fetcher that was handed [r] gives back: the value [a] when the
    stream of [r] reached its end, the failure of the stream otherwise. *)
Definition drained {A} (r : Response) (a : A) : Result A :=
  match raw_end r with
  | None => Ok a
  | Some e => Raise (NetError e)
  end.

(** A miss on [p] served once: the first run of [op] makes the call [c] and
    leaves the world [stored p c r w]; a second run from there returns [a]
    and leaves that world as it is, call log included. *)
Definition fetched_once {A} (op : M A) (a : A) (p : string) (c : HttpCall)
    (r : Response) (w : World) : Prop :=
  let w1 := stored p c r w in
  op w = (drained r a, w1)
  /\ op w1 = (Ok a, w1)
  /\ calls w1 = calls w ++ [c]
  /\ files w1 !! p = Some (copied r)
  /\ (raw_end r = None -> files w1 !! p = Some (raw_bytes r)).

(** A run of [op] that returned is repeatable: it made at most one call,
    the call [c], and a second run from the world it left returns the same
    value and leaves that world as it is. *)
Definition served_again {A} (op : M A) (c : HttpCall) (w : World) : Prop :=
  forall a w1,
    op w = (Ok a, w1) ->
    op w1 = (Ok a, w1)
    /\ (calls w1 = calls w \/ calls w1 = calls w ++ [c]).



(** The calls a run of [op] from [w] adds to the log. *)
Definition issues {A} (op : M A) (w : World) (l : list HttpCall) : Prop :=
  calls (snd (op w)) = calls w ++ l.

(** Every call that a run of [op] from [w] adds to the log was given the
    [timeout] argument [t]. *)
Definition passes_timeout {A} (t : option Z) (op : M A) (w : World) : Prop :=
  exists l, issues op w l /\ Forall (fun c => call_timeout c = t) l.

(** ** Requests to the dashboard *)

(** The characters of a decimal rendering. *)
Definition is_digit (c : ascii) : bool :=
  match uint_of_char c (Some Nil) with
  | Some _ => true
  | None => false
  end.

(** One call of one of the eight functions of [dashboard.py] that reach the
    service, with its arguments. *)
Inductive Request : Type :=
  | Gauge (client_id : Z)
  | GlobalImpact (max_feat : Z)
  | LocalImpact (client_id max_feat : Z)
  | SingleFeature (client_id : Z) (feature : string)
  | BivariatePair (feature_1 feature_2 : string)
  | FeatureSelection (client_id : Z) (is_wf : bool) (filter : string)
  | IdList
  | FeatureLists.

(** No unordered pair of positions has a bivariate file in both orders. *)
Definition pair_once (w : World) : Prop :=
  forall i j : Z,
    i <> j ->
    files w !! bivar_path i j = None \/ files w !! bivar_path j i = None.

(** ** The page: feature menus and the bivariate section *)

(** The options of the two radio buttons, [f_sublist_options_1] and
    [f_sublist_options_2]. *)
Definition f_sublist_options : list string :=
  ["Features de la demande de prêt";
   "Feature des prêts antérieurs";
   "Toutes les features"].

(** From the label chosen on the radio button to the [filter] of the
    service, the [if]/[elif]/[else] of the page. *)
Definition filter_code (label : string) : string :=
  if String.eqb label "Features de la demande de prêt" then "current"
  else if String.eqb label "Feature des prêts antérieurs" then "previous"
  else "all".

(** The argument of [st.columns]: a list of relative widths, or a number
    of columns of one width. *)
Inductive Columns : Type :=
  | ColumnWidths (spec : list Z)
  | EqualColumns (n : Z).

(** ** Concrete worlds and services, for the examples *)

Module Examples.
Import Byte.

Definition png : list byte := [x89; x50; x4e; x47; x0d; x0a].

Definition all : list string := ["AGE"; "EDUCATION"; "INCOME"].
Definition cat : list string := ["EDUCATION"].
Definition num : list string := ["AGE"; "INCOME"].

(** An empty scratch directory, no call made yet. *)
Definition cold : World := mkWorld ∅ [].

(** A service that answers every call with a complete image. *)
Definition srv_ok : list HttpCall -> HttpCall -> HttpOutcome :=
  fun _ _ => Returned (mkResponse 200 None png None).

(** A service whose every call times out before a response comes. *)
Definition srv_timeout : list HttpCall -> HttpCall -> HttpOutcome :=
  fun _ _ => Raised Timeout.




(** A service that scores every client [s]. *)
Definition srv_score (s : Json) : list HttpCall -> HttpCall -> HttpOutcome :=
  fun _ _ =>
    Returned (mkResponse 200 (Some (JObj [("score", s)])) [] None).

(** The binary64 floats 0.25 and 0.75. *)
Definition quarter : spec_float := S754_finite false 4503599627370496 (-54).
Definition three_quarters : spec_float :=
  S754_finite false 6755399441055744 (-53).

(** A service whose first call times out and which answers afterwards. *)
Definition srv_flaky : list HttpCall -> HttpCall -> HttpOutcome :=
  fun history _ =>
    match history with
    | [] => Raised Timeout
    | _ :: _ => Returned (mkResponse 200 None png None)
    end.

(** A service that answers every call with the JSON object [{key: v}]. *)
Definition srv_member (key : string) (v : Json)
    : list HttpCall -> HttpCall -> HttpOutcome :=
  fun _ _ => Returned (mkResponse 200 (Some (JObj [(key, v)])) [] None).

(** [st.cache] with nothing to answer from, and with an answer for
    every call. *)
Definition st_cache_empty : Request -> World -> bool := fun _ _ => false.
Definition st_cache_full : Request -> World -> bool := fun _ _ => true.

(** A scratch directory that holds the global-impact image for 20
    features. *)
Definition warm : World :=
  mkWorld {[ "./data/tmp/gfgi_20.png" := png ]} [gfgi_call 20].
End Examples.

Section Dashboard.

(** The remote service: from the calls already made and the present call
    to what [requests.get] does. *)
Variable server : list HttpCall -> HttpCall -> HttpOutcome.

(** The feature catalog, [features_list, cat_col, num_col =
    get_feature_lists()], evaluated once when the module is loaded. *)
Variables features_list cat_col num_col : list string.

(** [requests.get(...)]: the call reaches the network, then raises or
    returns the response. *)
Definition requests_get (c : HttpCall) : M Response :=
  fun w =>
    match server (calls w) c with
    | Raised e => (Raise (NetError e), log_call c w)
    | Returned r => (Ok r, log_call c w)
    end.

(** *** The JSON loaders *)

Definition load_id_list : M Json :=
  r <- requests_get (mkCall (url_server +:+ "/clients_list") false []
                            (Some timeout)) ;;
  d <- lift (json r) ;;
  lift (subscript d "id_list").

Definition get_feature_lists : M (Json * Json * Json) :=
  r <- requests_get (mkCall (url_server +:+ "/feature_lists") false []
                            (Some timeout)) ;;
  d <- lift (json r) ;;
  features_list <- lift (subscript d "all") ;;
  d <- lift (json r) ;;
  cat_col <- lift (subscript d "cat") ;;
  d <- lift (json r) ;;
  num_col <- lift (subscript d "num") ;;
  ret (features_list, cat_col, num_col).

Definition get_feature_selection_list (client_id : Z) (is_wf : bool)
    (filter : string) : M Json :=
  let query_param := [("is_wf", PBool is_wf); ("filter", PStr filter)] in
  r <- requests_get (mkCall (url_server +:+ "/" +:+ str_int client_id
                               +:+ "/feature_selection")
                            false query_param (Some timeout)) ;;
  d <- lift (json r) ;;
  lift (subscript d "feature_selection").

(** *** The gauge *)

Definition set_gauge (client_id : Z) : M Figure :=
  r <- requests_get (mkCall (url_server +:+ "/" +:+ str_int client_id)
                            false [] None) ;;
  d <- lift (json r) ;;
  score <- lift (subscript d "score") ;;
  c <- lift (ge_half score) ;;
  let result := if c then "Crédit non accepté" else "Crédit accepté" in
  let fig_gauge := mkFigure score result in
  ret fig_gauge.

(** *** The cached image fetchers *)

Definition graph_features_global_impact (max_feat : Z) : M string :=
  let filepath := tmp +:+ "gfgi_" +:+ str_int max_feat +:+ ".png" in
  e <- os_path_exists filepath ;;
  (if negb e then
     let query_param := [("max_feat", PInt max_feat)] in
     r <- requests_get (mkCall (url_server +:+ "/global_impact") true
                               query_param (Some timeout)) ;;
     f <- open_wb filepath ;;
     copyfileobj r f
   else ret tt) ;;;
  ret filepath.

Definition graph_features_local_impact (client_id max_feat : Z) : M string :=
  let filepath := tmp +:+ "gfli_" +:+ str_int client_id +:+ "_"
                      +:+ str_int max_feat +:+ ".png" in
  e <- os_path_exists filepath ;;
  (if negb e then
     let query_param := [("max_feat", PInt max_feat)] in
     r <- requests_get (mkCall (url_server +:+ "/" +:+ str_int client_id
                                  +:+ "/local_impact")
                               true query_param (Some timeout)) ;;
     f <- open_wb filepath ;;
     copyfileobj r f
   else ret tt) ;;;
  ret filepath.

Definition graph_feature (client_id : Z) (feature : string) : M string :=
  f_idx <- index features_list feature ;;
  let filepath := tmp +:+ "feature_" +:+ str_int client_id +:+ "_"
                      +:+ str_int f_idx +:+ ".png" in
  e <- os_path_exists filepath ;;
  (if negb e then
     let query_param := [("feature", PStr feature)] in
     r <- requests_get (mkCall (url_server +:+ "/" +:+ str_int client_id
                                  +:+ "/feature")
                               true query_param (Some timeout)) ;;
     f <- open_wb filepath ;;
     copyfileobj r f
   else ret tt) ;;;
  ret filepath.

(** The last statements of [bivar], which set [img_size]: ['normal'],
    overwritten by ['large'] when the test on the two lists holds. *)
Definition img_size (feature_1 feature_2 : string) : string :=
  let img_size := "normal" in
  if (py_in feature_1 cat_col && py_in feature_2 num_col)
     || (py_in feature_1 num_col && py_in feature_2 cat_col)
  then "large" else img_size.

Definition bivar (feature_1 feature_2 : string) : M (string * string) :=
  f1_idx <- index features_list feature_1 ;;
  f2_idx <- index features_list feature_2 ;;
  let filepath_1 := tmp +:+ "bivar" +:+ str_int f1_idx +:+ "_"
                        +:+ str_int f2_idx +:+ ".png" in
  let filepath_2 := tmp +:+ "bivar" +:+ str_int f2_idx +:+ "_"
                        +:+ str_int f1_idx +:+ ".png" in
  e1 <- os_path_exists filepath_1 ;;
  filepath <-
    (if e1 then ret filepath_1
     else
       e2 <- os_path_exists filepath_2 ;;
       if e2 then ret filepath_2
       else
         let filepath := tmp +:+ "bivar" +:+ str_int f1_idx +:+ "_"
                             +:+ str_int f2_idx +:+ ".png" in
         let query_param := [("feature_1", PStr feature_1);
                             ("feature_2", PStr feature_2)] in
         r <- requests_get (mkCall (url_server +:+ "/graph_bivar") true
                                   query_param (Some 60%Z)) ;;
         f <- open_wb filepath ;;
         copyfileobj r f ;;;
         ret filepath) ;;
  let img_size := img_size feature_1 feature_2 in
  ret (filepath, img_size).

(** The statements the three single-key fetchers share: test the path,
    on a miss stream the answer to call [c] into the file, return the
    path. Each fetcher is this program at its own path and call. *)
Definition cache_aside (filepath : string) (c : HttpCall) : M string :=
  e <- os_path_exists filepath ;;
  (if negb e then
     r <- requests_get c ;;
     f <- open_wb filepath ;;
     copyfileobj r f
   else ret tt) ;;;
  ret filepath.

(** [set_gauge], written out: the call is made, and everything after it is
    a function of the response alone. *)
Definition gauge_result (o : HttpOutcome) : Result Figure :=
  match o with
  | Raised e => Raise (NetError e)
  | Returned r =>
      match json r with
      | Ok d =>
          match subscript d "score" with
          | Ok score =>
              match ge_half score with
              | Ok c =>
                  Ok (mkFigure score (if c then "Crédit non accepté"
                                      else "Crédit accepté"))
              | Raise e => Raise e
              end
          | Raise e => Raise e
          end
      | Raise e => Raise e
      end
  end.

(** Runs [bivar] up to its first test of the store, once both positions
    are known from [Hi] and [Hj]. *)
Ltac bivar_indexed Hi Hj :=
  unfold bivar, index;
  unfold bind at 1; rewrite Hi; unfold ret at 1;
  unfold bind at 1; rewrite Hj; unfold ret at 1;
  unfold bind at 1;
  match type of Hi with _ = Some ?i =>
    match type of Hj with _ = Some ?j =>
      fold (bivar_path (Z.of_nat i) (Z.of_nat j));
      fold (bivar_path (Z.of_nat j) (Z.of_nat i))
    end
  end.

(** What [@st.cache(persist=True)] does with a call of the function it
    decorates: it answers from its own store, and the body does not run,
    or it lets the body run. Which of the two is Streamlit's affair (a
    value kept from an earlier run of the body, in this process or in one
    before it): it is left arbitrary. *)
Variable st_cache_holds : Request -> World -> bool.

(** The world a request leaves, whether it returned or raised. A call of
    [load_id_list] or [get_feature_lists] that [st.cache] answers leaves
    the world as it is. *)
Definition exec (q : Request) (w : World) : World :=
  match q with
  | Gauge client_id => snd (set_gauge client_id w)
  | GlobalImpact max_feat => snd (graph_features_global_impact max_feat w)
  | LocalImpact client_id max_feat =>
      snd (graph_features_local_impact client_id max_feat w)
  | SingleFeature client_id feature => snd (graph_feature client_id feature w)
  | BivariatePair feature_1 feature_2 => snd (bivar feature_1 feature_2 w)
  | FeatureSelection client_id is_wf filter =>
      snd (get_feature_selection_list client_id is_wf filter w)
  | IdList =>
      if st_cache_holds IdList w then w else snd (load_id_list w)
  | FeatureLists =>
      if st_cache_holds FeatureLists w then w else snd (get_feature_lists w)
  end.

(** The world after a sequence of requests, first to last. *)
Fixpoint exec_all (qs : list Request) (w : World) : World :=
  match qs with
  | [] => w
  | q :: qs' => exec_all qs' (exec q w)
  end.

(** The file a request writes on a miss: none for the gauge and the JSON
    loaders, none for a feature that [features_list] does not have. *)
Definition target_key (q : Request) : option string :=
  match q with
  | GlobalImpact max_feat => Some (gfgi_path max_feat)
  | LocalImpact client_id max_feat => Some (gfli_path client_id max_feat)
  | SingleFeature client_id feature =>
      match list_index features_list feature with
      | Some i => Some (feature_path client_id (Z.of_nat i))
      | None => None
      end
  | BivariatePair feature_1 feature_2 =>
      match list_index features_list feature_1,
            list_index features_list feature_2 with
      | Some i, Some j => Some (bivar_path (Z.of_nat i) (Z.of_nat j))
      | _, _ => None
      end
  | _ => None
  end.

(** The call a request makes when it reaches the service. *)
Definition call_of (q : Request) : HttpCall :=
  match q with
  | Gauge client_id => score_call client_id
  | GlobalImpact max_feat => gfgi_call max_feat
  | LocalImpact client_id max_feat => gfli_call client_id max_feat
  | SingleFeature client_id feature => feature_call client_id feature
  | BivariatePair feature_1 feature_2 => bivar_call feature_1 feature_2
  | FeatureSelection client_id is_wf filter =>
      mkCall (url_server +:+ "/" +:+ str_int client_id +:+ "/feature_selection")
             false [("is_wf", PBool is_wf); ("filter", PStr filter)]
             (Some timeout)
  | IdList => mkCall (url_server +:+ "/clients_list") false [] (Some timeout)
  | FeatureLists =>
      mkCall (url_server +:+ "/feature_lists") false [] (Some timeout)
  end.

(** The tests that send a request to the service: the gauge and
    [get_feature_selection_list] always go; [load_id_list] and
    [get_feature_lists] go when [st.cache] does not answer for them; a
    cached fetcher goes when its file is absent (for [bivar], when the
    files of both orders are), and never for a feature that
    [features_list] does not have. *)
Definition misses (q : Request) (w : World) : Prop :=
  match q with
  | GlobalImpact max_feat => files w !! gfgi_path max_feat = None
  | LocalImpact client_id max_feat =>
      files w !! gfli_path client_id max_feat = None
  | SingleFeature client_id feature =>
      exists i, list_index features_list feature = Some i
                /\ files w !! feature_path client_id (Z.of_nat i) = None
  | BivariatePair feature_1 feature_2 =>
      exists i j, list_index features_list feature_1 = Some i
                  /\ list_index features_list feature_2 = Some j
                  /\ files w !! bivar_path (Z.of_nat i) (Z.of_nat j) = None
                  /\ files w !! bivar_path (Z.of_nat j) (Z.of_nat i) = None
  | IdList => st_cache_holds IdList w = false
  | FeatureLists => st_cache_holds FeatureLists w = false
  | Gauge _ | FeatureSelection _ _ _ => True
  end.

(** The path a cached fetcher returns from [w], when it returns. *)
Definition path_returned (q : Request) (w : World) : option string :=
  match q with
  | GlobalImpact max_feat =>
      match fst (graph_features_global_impact max_feat w) with
      | Ok p => Some p
      | Raise _ => None
      end
  | LocalImpact client_id max_feat =>
      match fst (graph_features_local_impact client_id max_feat w) with
      | Ok p => Some p
      | Raise _ => None
      end
  | SingleFeature client_id feature =>
      match fst (graph_feature client_id feature w) with
      | Ok p => Some p
      | Raise _ => None
      end
  | BivariatePair feature_1 feature_2 =>
      match fst (bivar feature_1 feature_2 w) with
      | Ok (p, _) => Some p
      | Raise _ => None
      end
  | _ => None
  end.

(** The list of features offered by a menu of the page: the label of the
    radio button is turned into a filter and the list is asked for. *)
Definition feature_menu (client_id : Z) (is_wf : bool) (label : string)
    : M Json :=
  let filter := filter_code label in
  get_feature_selection_list client_id is_wf filter.

(** The last section of the page: for two different names, the bivariate
    image is fetched and laid out in the first of the columns asked of
    [st.columns]; for twice the same name nothing is done. What is
    returned is the layout and the image shown, if any. *)
Definition bivar_section (feature_1 feature_2 : string)
    : M (option (Columns * string)) :=
  if negb (String.eqb feature_1 feature_2) then
    r <- bivar feature_1 feature_2 ;;
    let '(img, size) := r in
    let cols := if String.eqb size "large" then ColumnWidths [3; 1]%Z
                else EqualColumns 2 in
    ret (Some (cols, img))
  else ret None.

(** ** Execution lemmas *)

Lemma global_impact_unfold max_feat :
  graph_features_global_impact max_feat
  = cache_aside (gfgi_path max_feat) (gfgi_call max_feat).
Proof. reflexivity. Qed.

Lemma local_impact_unfold client_id max_feat :
  graph_features_local_impact client_id max_feat
  = cache_aside (gfli_path client_id max_feat) (gfli_call client_id max_feat).
Proof. reflexivity. Qed.

Lemma graph_feature_unfold client_id feature :
  graph_feature client_id feature
  = (f_idx <- index features_list feature ;;
     cache_aside (feature_path client_id f_idx)
                 (feature_call client_id feature)).
Proof. reflexivity. Qed.

Lemma exists_absent p w :
  files w !! p = None -> os_path_exists p w = (Ok false, w).
Proof.
  intros H. unfold os_path_exists. rewrite H.
  rewrite bool_decide_eq_false_2; [reflexivity | apply is_Some_None].
Qed.

Lemma exists_present p w :
  is_Some (files w !! p) -> os_path_exists p w = (Ok true, w).
Proof.
  intros H. unfold os_path_exists.
  rewrite bool_decide_eq_true_2; [reflexivity | exact H].
Qed.

(** ** The loop of [copyfileobj] *)

Lemma set_files_id (w : World) : set_files (files w) w = w.
Proof. destruct w; reflexivity. Qed.

Lemma whole_blocks_small (amt : N) (n : nat) :
  (N.of_nat n < amt)%N -> whole_blocks amt n = 0.
Proof.
  intros H. unfold whole_blocks. rewrite N.div_small by exact H. reflexivity.
Qed.

Lemma whole_blocks_step (amt : N) (n : nat) :
  amt <> 0%N ->
  (amt <= N.of_nat n)%N ->
  whole_blocks amt n = N.to_nat amt + whole_blocks amt (n - N.to_nat amt).
Proof.
  intros HC H. unfold whole_blocks.
  assert (E : N.of_nat (n - N.to_nat amt) = (N.of_nat n - amt)%N).
  { rewrite Nat2N.inj_sub, N2Nat.id. reflexivity. }
  rewrite E. set (L := N.of_nat n) in *.
  assert (HL : L = (1 * amt + (L - amt))%N) by lia.
  rewrite HL at 1. rewrite (N.div_add_l 1 amt (L - amt) HC).
  rewrite <- N2Nat.inj_add. f_equal. lia.
Qed.

(** With fuel for every byte the loop runs to its end: it has appended the
    whole stream, or the whole blocks of a stream that broke off, and it
    ends as the stream ends. *)
Lemma copy_blocks_spec (amt : N) (fuel : nat) :
  amt <> 0%N ->
  forall arriving ending f w old,
    files w !! f = Some old ->
    length arriving < fuel ->
    copy_blocks fuel amt arriving ending f w
    = (match ending with None => Ok tt | Some e => Raise (NetError e) end,
       set_files
         (<[f := old ++ match ending with
                        | None => arriving
                        | Some _ =>
                            take (whole_blocks amt (length arriving)) arriving
                        end]> (files w)) w).
Proof.
  intros Hamt.
  induction fuel as [|fuel IH]; intros arriving ending f w old Hf Hlen;
    [lia |].
  assert (Hsame : set_files (<[f := old ++ []]> (files w)) w = w).
  { rewrite app_nil_r, insert_id by exact Hf. apply set_files_id. }
  cbn [copy_blocks]. unfold raw_read.
  destruct (amt <=? N.of_nat (length arriving))%N eqn:Hle.
  - apply N.leb_le in Hle.
    assert (Hn : 0 < N.to_nat amt <= length arriving) by lia.
    destruct (take (N.to_nat amt) arriving) as [|b buf] eqn:Hbuf.
    { exfalso. apply (f_equal length) in Hbuf.
      rewrite length_take in Hbuf. cbn [length] in Hbuf. lia. }
    rewrite <- Hbuf. unfold bind, file_write. rewrite Hf. cbn [default].
    rewrite (IH (drop (N.to_nat amt) arriving) ending f _
                (old ++ take (N.to_nat amt) arriving)).
    + cbn [files set_files]. rewrite insert_insert_eq.
      f_equal. unfold set_files. cbn [calls]. f_equal. f_equal.
      rewrite <- app_assoc. f_equal.
      destruct ending as [e|].
      * rewrite length_drop, take_take_drop. f_equal.
        symmetry. apply whole_blocks_step; assumption.
      * apply take_drop.
    + cbn [files set_files]. apply lookup_insert_eq.
    + rewrite length_drop. lia.
  - apply N.leb_gt in Hle. destruct ending as [e|].
    + unfold raise. rewrite whole_blocks_small by exact Hle.
      rewrite take_0, Hsame. reflexivity.
    + destruct arriving as [|b arriving].
      * unfold ret. rewrite Hsame. reflexivity.
      * unfold bind, file_write. rewrite Hf. cbn [default].
        rewrite (IH [] None f _ (old ++ b :: arriving)).
        -- cbn [files set_files]. rewrite insert_insert_eq, app_nil_r.
           reflexivity.
        -- cbn [files set_files]. apply lookup_insert_eq.
        -- cbn [length] in *. lia.
Qed.

Lemma copyfileobj_spec (r : Response) (f : string) (w : World)
    (old : list Byte.byte) :
  files w !! f = Some old ->
  copyfileobj r f w
  = (drained r tt, set_files (<[f := old ++ copied r]> (files w)) w).
Proof.
  intros Hf. unfold copyfileobj.
  rewrite (copy_blocks_spec COPY_BUFSIZE _ ltac:(discriminate) _ _ _ _ old Hf)
    by lia.
  unfold drained, copied. destruct (raw_end r); reflexivity.
Qed.

Lemma copied_complete (r : Response) :
  raw_end r = None -> copied r = raw_bytes r.
Proof. intros H. unfold copied. rewrite H. reflexivity. Qed.


Lemma copied_prefix (r : Response) : copied r `prefix_of` raw_bytes r.
Proof.
  unfold copied. destruct (raw_end r); [apply prefix_take | reflexivity].
Qed.

(** Streaming the answer into a file that is absent, or being rewritten:
    the world afterwards holds what was copied. *)
Lemma write_stream p r w :
  (f <- open_wb p ;; copyfileobj r f) w
  = (drained r tt, set_files (<[p := copied r]> (files w)) w).
Proof.
  unfold bind, open_wb.
  rewrite (copyfileobj_spec r p _ []) by apply lookup_insert_eq.
  unfold set_files. simpl. rewrite insert_insert_eq. reflexivity.
Qed.

Lemma cache_aside_hit p c w :
  is_Some (files w !! p) -> cache_aside p c w = (Ok p, w).
Proof.
  intros H. unfold cache_aside, bind. rewrite (exists_present _ _ H).
  reflexivity.
Qed.

Lemma cache_aside_raised p c w e :
  files w !! p = None ->
  server (calls w) c = Raised e ->
  cache_aside p c w = (Raise (NetError e), log_call c w).
Proof.
  intros Hp Hs. unfold cache_aside, bind. rewrite (exists_absent _ _ Hp).
  simpl. unfold requests_get. rewrite Hs. reflexivity.
Qed.

Lemma cache_aside_returned p c w r :
  files w !! p = None ->
  server (calls w) c = Returned r ->
  cache_aside p c w = (drained r p, stored p c r w).
Proof.
  intros Hp Hs. unfold cache_aside.
  unfold bind at 1. rewrite (exists_absent _ _ Hp). simpl.
  unfold bind at 1. unfold bind at 1. unfold requests_get. rewrite Hs.
  rewrite write_stream. unfold drained, stored, set_files, log_call. simpl.
  destruct (raw_end r); reflexivity.
Qed.

Lemma stored_present p c r w : is_Some (files (stored p c r w) !! p).
Proof. unfold stored. simpl. rewrite lookup_insert_eq. eauto. Qed.

Lemma cache_aside_again p c w r :
  cache_aside p c (stored p c r w) = (Ok p, stored p c r w).
Proof. apply cache_aside_hit, stored_present. Qed.

(** ** Decimal renderings and the separator *)

Lemma append_inv_head (s a b : string) : s +:+ a = s +:+ b -> a = b.
Proof.
  induction s as [|ch s IH]; simpl; intros H; [exact H |].
  injection H as H. auto.
Qed.

(** Digits never contain the underscore: two renderings followed by an
    underscore that agree as strings are renderings of one number. *)
Lemma uint_sep_inj (d1 : uint) : forall (d2 : uint) (s1 s2 : string),
  NilEmpty.string_of_uint d1 +:+ String "_" s1
  = NilEmpty.string_of_uint d2 +:+ String "_" s2 ->
  d1 = d2.
Proof.
  induction d1 as [|d1 IH|d1 IH|d1 IH|d1 IH|d1 IH|d1 IH|d1 IH|d1 IH|d1 IH|d1 IH];
    intros [|d2|d2|d2|d2|d2|d2|d2|d2|d2|d2] s1 s2; simpl; intros H;
    try reflexivity; try discriminate H;
    injection H as H; f_equal; eapply IH; exact H.
Qed.

Lemma nilzero_nonnil (d : uint) :
  d <> Nil -> NilZero.string_of_uint d = NilEmpty.string_of_uint d.
Proof. destruct d; [congruence | reflexivity..]. Qed.

Lemma str_int_of_nat (n : nat) :
  exists d, str_int (Z.of_nat n) = NilEmpty.string_of_uint d
            /\ Z.to_int (Z.of_nat n) = Pos d.
Proof.
  unfold str_int. destruct (Z.of_nat n) as [|p|p] eqn:E; simpl.
  - exists (D0 Nil). split; reflexivity.
  - exists (Pos.to_uint p). split; [| reflexivity].
    apply nilzero_nonnil, Unsigned.to_uint_nonnil.
  - pose proof (Nat2Z.is_nonneg n) as Hn. rewrite E in Hn.
    exfalso. apply Hn. reflexivity.
Qed.

Lemma str_index_sep_inj (i j : nat) (s1 s2 : string) :
  str_int (Z.of_nat i) +:+ "_" +:+ s1 = str_int (Z.of_nat j) +:+ "_" +:+ s2 ->
  i = j.
Proof.
  destruct (str_int_of_nat i) as (di & Hi & Ei).
  destruct (str_int_of_nat j) as (dj & Hj & Ej).
  rewrite Hi, Hj. intros H. apply uint_sep_inj in H. subst dj.
  apply Nat2Z.inj, DecimalZ.to_int_inj. congruence.
Qed.

(** The two keys of an unordered pair differ when the positions do. *)
Lemma bivar_path_swap_ne (i j : nat) :
  i <> j -> bivar_path (Z.of_nat i) (Z.of_nat j)
            <> bivar_path (Z.of_nat j) (Z.of_nat i).
Proof.
  intros Hne H. apply Hne. unfold bivar_path in H.
  apply append_inv_head in H. apply append_inv_head in H.
  eapply str_index_sep_inj. exact H.
Qed.

(** ** The comparison of a binary64 float with one half *)

Lemma digits2_pos_bounds (m : positive) :
  (2 ^ (Z.pos (digits2_pos m) - 1) <= Z.pos m < 2 ^ Z.pos (digits2_pos m))%Z.
Proof.
  induction m as [p IH | p IH |]; simpl digits2_pos.
  - rewrite Pos2Z.inj_succ.
    replace (Z.succ (Z.pos (digits2_pos p)) - 1)%Z
      with (Z.succ (Z.pos (digits2_pos p) - 1)) by lia.
    rewrite !Z.pow_succ_r by lia. lia.
  - rewrite Pos2Z.inj_succ.
    replace (Z.succ (Z.pos (digits2_pos p)) - 1)%Z
      with (Z.succ (Z.pos (digits2_pos p) - 1)) by lia.
    rewrite !Z.pow_succ_r by lia. lia.
  - simpl. lia.
Qed.

(** On the mantissa and exponent of a positive binary64 float, [SFleb half]
    decides whether the value, scaled by [2^1075], reaches [2^1074]. *)
Lemma SFleb_half_scaled (m : positive) (e : Z) :
  bounded 53 1024 m e = true ->
  (-1074 <= e)%Z
  /\ (SFleb half (S754_finite false m e) = true
      <-> (2 ^ 1074 <= Z.pos m * 2 ^ (e + 1075))%Z).
Proof.
  unfold bounded, canonical_mantissa, fexp, emin.
  intros H. apply andb_prop in H as [Hc _]. apply Z.eqb_eq in Hc.
  pose proof (digits2_pos_bounds m) as [Hlo Hhi].
  set (d := Z.pos (digits2_pos m)) in *.
  assert (Hd : (0 < d)%Z) by (unfold d; lia).
  assert (He : (-1074 <= e)%Z) by lia.
  split; [exact He |].
  unfold SFleb, SFcompare, half.
  destruct (Z.compare_spec (-53) e) as [E | E | E].
  - subst e. assert (d = 53)%Z by lia.
    assert (Hm : (2 ^ 52 <= Z.pos m)%Z)
      by (replace 52%Z with (d - 1)%Z by lia; exact Hlo).
    rewrite BinPos.Pos.compare_cont_spec. simpl Pos.switch_Eq.
    change (-53 + 1075)%Z with 1022%Z.
    split; intros _.
    + replace 1074%Z with (52 + 1022)%Z by lia. rewrite Z.pow_add_r by lia.
      apply Z.mul_le_mono_nonneg_r; [apply Z.pow_nonneg; lia | exact Hm].
    + destruct (Pos.compare_spec 4503599627370496 m) as [Hc' | Hc' | Hc'];
        try reflexivity.
      exfalso. change (2 ^ 52)%Z with (Z.pos 4503599627370496) in Hm.
      apply Pos2Z.pos_lt_pos in Hc'.
      apply (Z.lt_irrefl (Z.pos m)). eapply Z.lt_le_trans; eassumption.
  - assert (d = 53)%Z by lia.
    assert (Hm : (2 ^ 52 <= Z.pos m)%Z)
      by (replace 52%Z with (d - 1)%Z by lia; exact Hlo).
    split; intros _; [| reflexivity].
    transitivity (2 ^ 52 * 2 ^ (e + 1075))%Z.
    + rewrite <- Z.pow_add_r by lia. apply Z.pow_le_mono_r; lia.
    + apply Z.mul_le_mono_nonneg_r; [apply Z.pow_nonneg; lia | exact Hm].
  - assert (d <= 53)%Z by lia.
    assert (Hm : (Z.pos m < 2 ^ 53)%Z).
    { eapply Z.lt_le_trans; [exact Hhi |]. apply Z.pow_le_mono_r; lia. }
    split; [discriminate |]. intros Hge. exfalso.
    assert (Hlt : (Z.pos m * 2 ^ (e + 1075) < 2 ^ 1074)%Z).
    { eapply Z.lt_le_trans.
      - apply Z.mul_lt_mono_pos_r; [apply Z.pow_pos_nonneg; lia | exact Hm].
      - rewrite <- Z.pow_add_r by lia. apply Z.pow_le_mono_r; lia. }
    apply (Z.lt_irrefl (2 ^ 1074)). eapply Z.le_lt_trans; eassumption.
Qed.

Lemma two_nonzero : ~ (2 == 0)%Q.
Proof. discriminate. Qed.

Lemma half_le_scaled (m : positive) (e : Z) :
  (-1074 <= e)%Z ->
  ((1 # 2 <= finite_value false m e)%Q
   <-> (2 ^ 1074 <= Z.pos m * 2 ^ (e + 1075))%Z).
Proof.
  intros He. unfold finite_value.
  rewrite Zle_Qle, inject_Z_mult.
  rewrite !Zpower_Qpower by lia.
  change (inject_Z 2) with 2%Q.
  rewrite (Qpower_plus 2 e 1075 two_nonzero).
  assert (Hpos : (0 < 2 ^ 1075)%Q) by (apply Qpower_0_lt; reflexivity).
  rewrite <- (Qmult_le_r _ _ _ Hpos).
  assert (E1 : ((1 # 2) * 2 ^ 1075 == 2 ^ 1074)%Q).
  { change 1075%Z with (1074 + 1)%Z.
    rewrite (Qpower_plus 2 1074 1 two_nonzero).
    change (2 ^ 1)%Q with 2%Q. field. }
  assert (E2 : (1 * inject_Z (Z.pos m) * 2 ^ e * 2 ^ 1075
                == inject_Z (Z.pos m) * (2 ^ e * 2 ^ 1075))%Q) by ring.
  rewrite E1, E2. reflexivity.
Qed.

Lemma finite_value_negative (m : positive) (e : Z) :
  (finite_value true m e < 0)%Q.
Proof.
  unfold finite_value.
  assert (Hm : (0 < inject_Z (Z.pos m))%Q) by reflexivity.
  assert (He : (0 < 2 ^ e)%Q) by (apply Qpower_0_lt; reflexivity).
  pose proof (Qmult_lt_0_compat _ _ Hm He) as Hx.
  set (x := (inject_Z (Z.pos m) * 2 ^ e)%Q) in *.
  assert (E : (-1 * inject_Z (Z.pos m) * 2 ^ e == - x)%Q) by (unfold x; ring).
  rewrite E. lra.
Qed.

(** On a well-formed binary64 float, the IEEE test [0.5 <= f] is the
    comparison of the numbers. *)
Lemma SFleb_half_spec (f : spec_float) :
  valid_binary 53 1024 f = true ->
  (SFleb half f = true <-> at_least_half f).
Proof.
  destruct f as [s | s | | s m e]; simpl valid_binary; intros Hv.
  - simpl. split; [discriminate | contradiction].
  - destruct s; simpl; split; intros H; try reflexivity; discriminate H.
  - simpl. split; [discriminate | contradiction].
  - destruct s.
    + split; [discriminate |]. unfold at_least_half. intros H. exfalso.
      pose proof (finite_value_negative m e). lra.
    + destruct (SFleb_half_scaled m e Hv) as [He Hiff].
      rewrite Hiff. unfold at_least_half. symmetry. apply half_le_scaled, He.
Qed.

(** ** [list.index] *)

Lemma list_index_lookup (l : list string) (x : string) (i : nat) :
  list_index l x = Some i -> l !! i = Some x.
Proof.
  revert i. induction l as [|y l IH]; intros i; simpl; [discriminate |].
  destruct (String.eqb y x) eqn:E.
  - intros [= <-]. apply String.eqb_eq in E. subst. reflexivity.
  - destruct (list_index l x) as [k|]; simpl; [| discriminate].
    intros [= <-]. simpl. apply IH. reflexivity.
Qed.

Lemma list_index_inj (l : list string) (a b : string) (i j : nat) :
  list_index l a = Some i -> list_index l b = Some j -> a <> b -> i <> j.
Proof.
  intros Ha Hb Hne ->. apply list_index_lookup in Ha, Hb. congruence.
Qed.

Lemma py_in_elem_of (x : string) (l : list string) :
  py_in x l = true <-> x ∈ l.
Proof.
  unfold py_in. rewrite existsb_exists. split.
  - intros (y & Hy & E). apply String.eqb_eq in E. subst.
    apply list_elem_of_In. exact Hy.
  - intros H. exists x. split; [apply list_elem_of_In, H | apply String.eqb_refl].
Qed.

Lemma list_index_None (l : list string) (x : string) :
  x ∉ l -> list_index l x = None.
Proof.
  induction l as [|y l IH]; intros H; simpl; [reflexivity |].
  destruct (String.eqb y x) eqn:E.
  - apply String.eqb_eq in E. subst. exfalso. apply H. left.
  - rewrite IH; [reflexivity |]. intros Hin. apply H. right. exact Hin.
Qed.

Lemma index_found (l : list string) (x : string) (i : nat) (w : World) :
  list_index l x = Some i -> index l x w = (Ok (Z.of_nat i), w).
Proof. intros H. unfold index. rewrite H. reflexivity. Qed.

Lemma index_missing (l : list string) (x : string) (w : World) :
  x ∉ l -> index l x w = (Raise ValueError, w).
Proof.
  intros H. unfold index. rewrite (list_index_None _ _ H). reflexivity.
Qed.

(** ** [bivar], case by case *)

Lemma bivar_hit_primary feature_1 feature_2 i j w :
  list_index features_list feature_1 = Some i ->
  list_index features_list feature_2 = Some j ->
  is_Some (files w !! bivar_path (Z.of_nat i) (Z.of_nat j)) ->
  bivar feature_1 feature_2 w
  = (Ok (bivar_path (Z.of_nat i) (Z.of_nat j),
         img_size feature_1 feature_2), w).
Proof.
  intros Hi Hj H. bivar_indexed Hi Hj.
  rewrite (exists_present _ _ H). reflexivity.
Qed.

Lemma bivar_hit_reverse feature_1 feature_2 i j w :
  list_index features_list feature_1 = Some i ->
  list_index features_list feature_2 = Some j ->
  files w !! bivar_path (Z.of_nat i) (Z.of_nat j) = None ->
  is_Some (files w !! bivar_path (Z.of_nat j) (Z.of_nat i)) ->
  bivar feature_1 feature_2 w
  = (Ok (bivar_path (Z.of_nat j) (Z.of_nat i),
         img_size feature_1 feature_2), w).
Proof.
  intros Hi Hj H1 H2. bivar_indexed Hi Hj.
  rewrite (exists_absent _ _ H1).
  unfold bind at 1. unfold bind at 1.
  rewrite (exists_present _ _ H2). reflexivity.
Qed.

Lemma bivar_miss_raised feature_1 feature_2 i j w e :
  list_index features_list feature_1 = Some i ->
  list_index features_list feature_2 = Some j ->
  files w !! bivar_path (Z.of_nat i) (Z.of_nat j) = None ->
  files w !! bivar_path (Z.of_nat j) (Z.of_nat i) = None ->
  server (calls w) (bivar_call feature_1 feature_2) = Raised e ->
  bivar feature_1 feature_2 w
  = (Raise (NetError e), log_call (bivar_call feature_1 feature_2) w).
Proof.
  intros Hi Hj H1 H2 Hs. bivar_indexed Hi Hj.
  rewrite (exists_absent _ _ H1).
  unfold bind at 1. unfold bind at 1.
  rewrite (exists_absent _ _ H2).
  unfold bind at 1. unfold requests_get.
  fold (bivar_call feature_1 feature_2). rewrite Hs. reflexivity.
Qed.

Lemma bivar_miss_returned feature_1 feature_2 i j w r :
  list_index features_list feature_1 = Some i ->
  list_index features_list feature_2 = Some j ->
  files w !! bivar_path (Z.of_nat i) (Z.of_nat j) = None ->
  files w !! bivar_path (Z.of_nat j) (Z.of_nat i) = None ->
  server (calls w) (bivar_call feature_1 feature_2) = Returned r ->
  bivar feature_1 feature_2 w
  = (drained r (bivar_path (Z.of_nat i) (Z.of_nat j),
                img_size feature_1 feature_2),
     stored (bivar_path (Z.of_nat i) (Z.of_nat j))
            (bivar_call feature_1 feature_2) r w).
Proof.
  intros Hi Hj H1 H2 Hs. bivar_indexed Hi Hj.
  rewrite (exists_absent _ _ H1).
  unfold bind at 1. unfold bind at 1.
  rewrite (exists_absent _ _ H2).
  unfold bind at 1. unfold requests_get.
  fold (bivar_call feature_1 feature_2). rewrite Hs.
  unfold bind at 1. unfold open_wb. unfold bind at 1.
  rewrite (copyfileobj_spec r _ _ []) by apply lookup_insert_eq.
  unfold drained, stored, set_files, log_call. simpl.
  rewrite insert_insert_eq. destruct (raw_end r); reflexivity.
Qed.

(** Whatever [bivar] returns, its size tag is [img_size] of the two
    names: the tag does not depend on the store or on the service. *)
Lemma bivar_size feature_1 feature_2 w p s w' :
  bivar feature_1 feature_2 w = (Ok (p, s), w') ->
  s = img_size feature_1 feature_2.
Proof.
  unfold bivar, bind, index, ret, raise.
  destruct (list_index features_list feature_1); [| discriminate].
  destruct (list_index features_list feature_2); [| discriminate].
  destruct (os_path_exists _ w) as [[[]|] ?]; try discriminate.
  - intros [= _ <- _]. reflexivity.
  - destruct (os_path_exists _ _) as [[[]|] ?]; try discriminate.
    + intros [= _ <- _]. reflexivity.
    + destruct (requests_get _ _) as [[?|] ?]; try discriminate.
      destruct (open_wb _ _) as [[?|] ?]; try discriminate.
      destruct (copyfileobj _ _ _) as [[?|] ?]; try discriminate.
      intros [= _ <- _]. reflexivity.
Qed.

(** ** A fetch that returned is repeatable *)

Lemma cache_aside_served_again p c w : served_again (cache_aside p c) c w.
Proof.
  intros a w1 H. destruct (files w !! p) as [data|] eqn:Hp.
  - assert (Hsome : is_Some (files w !! p)) by (rewrite Hp; eauto).
    rewrite (cache_aside_hit _ _ _ Hsome) in H. injection H as <- <-.
    split; [apply cache_aside_hit, Hsome | left; reflexivity].
  - destruct (server (calls w) c) as [e | r] eqn:Hs.
    + rewrite (cache_aside_raised _ _ _ _ Hp Hs) in H. discriminate H.
    + rewrite (cache_aside_returned _ _ _ _ Hp Hs) in H. unfold drained in H.
      destruct (raw_end r); [discriminate H |]. injection H as <- <-.
      split; [apply cache_aside_again | right; reflexivity].
Qed.

Lemma graph_feature_served_again client_id feature w :
  served_again (graph_feature client_id feature)
    (feature_call client_id feature) w.
Proof.
  intros a w1. rewrite graph_feature_unfold. unfold bind, index.
  destruct (list_index features_list feature) as [i|]; simpl;
    [| discriminate].
  apply cache_aside_served_again.
Qed.

Lemma bivar_served_again feature_1 feature_2 w :
  served_again (bivar feature_1 feature_2) (bivar_call feature_1 feature_2) w.
Proof.
  intros a w1 H.
  destruct (list_index features_list feature_1) as [i|] eqn:Hi.
  2:{ unfold bivar, bind, index in H. rewrite Hi in H. discriminate H. }
  destruct (list_index features_list feature_2) as [j|] eqn:Hj.
  2:{ unfold bivar, bind, index in H. rewrite Hi, Hj in H. discriminate H. }
  destruct (files w !! bivar_path (Z.of_nat i) (Z.of_nat j)) as [d1|] eqn:H1.
  { assert (Hsome : is_Some (files w !! bivar_path (Z.of_nat i) (Z.of_nat j)))
      by (rewrite H1; eauto).
    rewrite (bivar_hit_primary _ _ _ _ _ Hi Hj Hsome) in H.
    injection H as <- <-.
    split; [apply (bivar_hit_primary _ _ _ _ _ Hi Hj Hsome) | left; reflexivity]. }
  destruct (files w !! bivar_path (Z.of_nat j) (Z.of_nat i)) as [d2|] eqn:H2.
  { assert (Hsome : is_Some (files w !! bivar_path (Z.of_nat j) (Z.of_nat i)))
      by (rewrite H2; eauto).
    rewrite (bivar_hit_reverse _ _ _ _ _ Hi Hj H1 Hsome) in H.
    injection H as <- <-.
    split; [apply (bivar_hit_reverse _ _ _ _ _ Hi Hj H1 Hsome)
           | left; reflexivity]. }
  destruct (server (calls w) (bivar_call feature_1 feature_2)) as [e | r] eqn:Hs.
  - rewrite (bivar_miss_raised _ _ _ _ _ _ Hi Hj H1 H2 Hs) in H.
    discriminate H.
  - rewrite (bivar_miss_returned _ _ _ _ _ _ Hi Hj H1 H2 Hs) in H.
    unfold drained in H. destruct (raw_end r); [discriminate H |].
    injection H as <- <-.
    split; [| right; reflexivity].
    apply (bivar_hit_primary _ _ _ _ _ Hi Hj). apply stored_present.
Qed.

(** ** The claims *)

(** C1 (symmetry collapse). Let [a] and [b] be two different features of
    the catalog, at positions [i] and [j], and let the store hold neither
    [bivar{i}_{j}.png] nor [bivar{j}_{i}.png]. When the service answers the
    bivariate call for (a,b) with a complete stream, [bivar a b] followed by
    [bivar b a] makes exactly one remote call, adds exactly one file, the
    one keyed in the order of the first request, and both requests return
    that path. The second request finds nothing at its own key
    [bivar{j}_{i}.png], finds the reverse key, and returns it as it is: the
    store has no file at [bivar{j}_{i}.png] afterwards either. The key in
    the order given is looked up first: whenever it is present it is the
    one returned. *)
Theorem bivar_symmetry_collapse (a b : string) (i j : nat) (w : World)
    (r : Response) :
  a <> b ->
  list_index features_list a = Some i ->
  list_index features_list b = Some j ->
  files w !! bivar_path (Z.of_nat i) (Z.of_nat j) = None ->
  files w !! bivar_path (Z.of_nat j) (Z.of_nat i) = None ->
  server (calls w) (bivar_call a b) = Returned r ->
  raw_end r = None ->
  let key := bivar_path (Z.of_nat i) (Z.of_nat j) in
  let rev_key := bivar_path (Z.of_nat j) (Z.of_nat i) in
  let w1 := stored key (bivar_call a b) r w in
  bivar a b w = (Ok (key, img_size a b), w1)
  /\ bivar b a w1 = (Ok (key, img_size b a), w1)
  /\ calls w1 = calls w ++ [bivar_call a b]
  /\ files w1 = <[key := raw_bytes r]> (files w)
  /\ size (files w1) = S (size (files w))
  /\ files w1 !! key = Some (raw_bytes r)
  /\ files w1 !! rev_key = None
  /\ (forall w', is_Some (files w' !! rev_key) ->
        bivar b a w' = (Ok (rev_key, img_size b a), w')).
Proof.
  intros Hab Hi Hj Hkey Hrev Hs Hend key rev_key w1.
  assert (Hne : key <> rev_key).
  { apply bivar_path_swap_ne. eapply list_index_inj; eauto. }
  assert (Hrev1 : files w1 !! rev_key = None).
  { unfold w1, stored. simpl. rewrite lookup_insert_ne; [exact Hrev | exact Hne]. }
  assert (Hfiles : files w1 = <[key := raw_bytes r]> (files w)).
  { unfold w1, stored. simpl. rewrite (copied_complete r Hend). reflexivity. }
  split; [| split; [| split; [| split; [| split; [| split; [| split]]]]]].
  - rewrite (bivar_miss_returned a b i j w r Hi Hj Hkey Hrev Hs).
    unfold drained. rewrite Hend. reflexivity.
  - apply (bivar_hit_reverse b a j i w1 Hj Hi Hrev1). apply stored_present.
  - reflexivity.
  - exact Hfiles.
  - rewrite Hfiles. apply map_size_insert_None. exact Hkey.
  - rewrite Hfiles. apply lookup_insert_eq.
  - exact Hrev1.
  - intros w' H. apply (bivar_hit_primary b a j i w' Hj Hi H).
Qed.

(** C2 (at most one fetch per key, sequential). For each of the four
    cached fetchers, running it twice in sequence with the same arguments:
    whenever the first run returns, it has made at most one remote call,
    and the second run finds the file, returns the same path and leaves the
    world, call log included, as the first run left it. From a store that
    has no file at the key of the request (for [bivar], at neither of its
    two keys), and when the service answers the call with a response, the
    first run makes exactly one call, so the two runs make exactly one. *)
Theorem second_fetch_is_served_from_store (w : World) (r : Response) :
  (forall max_feat,
      served_again (graph_features_global_impact max_feat)
        (gfgi_call max_feat) w
      /\ (files w !! gfgi_path max_feat = None ->
          server (calls w) (gfgi_call max_feat) = Returned r ->
          fetched_once (graph_features_global_impact max_feat)
            (gfgi_path max_feat) (gfgi_path max_feat) (gfgi_call max_feat)
            r w))
  /\ (forall client_id max_feat,
      served_again (graph_features_local_impact client_id max_feat)
        (gfli_call client_id max_feat) w
      /\ (files w !! gfli_path client_id max_feat = None ->
          server (calls w) (gfli_call client_id max_feat) = Returned r ->
          fetched_once (graph_features_local_impact client_id max_feat)
            (gfli_path client_id max_feat) (gfli_path client_id max_feat)
            (gfli_call client_id max_feat) r w))
  /\ (forall client_id feature,
      served_again (graph_feature client_id feature)
        (feature_call client_id feature) w
      /\ (forall i,
          list_index features_list feature = Some i ->
          files w !! feature_path client_id (Z.of_nat i) = None ->
          server (calls w) (feature_call client_id feature) = Returned r ->
          fetched_once (graph_feature client_id feature)
            (feature_path client_id (Z.of_nat i))
            (feature_path client_id (Z.of_nat i))
            (feature_call client_id feature) r w))
  /\ (forall feature_1 feature_2,
      served_again (bivar feature_1 feature_2)
        (bivar_call feature_1 feature_2) w
      /\ (forall i j,
          list_index features_list feature_1 = Some i ->
          list_index features_list feature_2 = Some j ->
          files w !! bivar_path (Z.of_nat i) (Z.of_nat j) = None ->
          files w !! bivar_path (Z.of_nat j) (Z.of_nat i) = None ->
          server (calls w) (bivar_call feature_1 feature_2) = Returned r ->
          fetched_once (bivar feature_1 feature_2)
            (bivar_path (Z.of_nat i) (Z.of_nat j),
             img_size feature_1 feature_2)
            (bivar_path (Z.of_nat i) (Z.of_nat j))
            (bivar_call feature_1 feature_2) r w)).
Proof.
  assert (Hstored : forall p c, files (stored p c r w) !! p = Some (copied r)).
  { intros p c. unfold stored. simpl. apply lookup_insert_eq. }
  assert (Hwhole : forall p c, raw_end r = None ->
            files (stored p c r w) !! p = Some (raw_bytes r)).
  { intros p c Hend. rewrite Hstored, (copied_complete r Hend). reflexivity. }
  repeat apply conj.
  - intros max_feat. split.
    { rewrite global_impact_unfold. apply cache_aside_served_again. }
    intros Hp Hs. unfold fetched_once. rewrite global_impact_unfold.
    rewrite (cache_aside_returned _ _ _ _ Hp Hs), cache_aside_again.
    repeat split; auto.
  - intros client_id max_feat. split.
    { rewrite local_impact_unfold. apply cache_aside_served_again. }
    intros Hp Hs. unfold fetched_once. rewrite local_impact_unfold.
    rewrite (cache_aside_returned _ _ _ _ Hp Hs), cache_aside_again.
    repeat split; auto.
  - intros client_id feature. split.
    { apply graph_feature_served_again. }
    intros i Hi Hp Hs. unfold fetched_once.
    rewrite graph_feature_unfold. unfold bind at 1 2.
    rewrite !(index_found _ _ _ _ Hi).
    rewrite (cache_aside_returned _ _ _ _ Hp Hs), cache_aside_again.
    repeat split; auto.
  - intros feature_1 feature_2. split.
    { apply bivar_served_again. }
    intros i j Hi Hj H1 H2 Hs. unfold fetched_once.
    rewrite (bivar_miss_returned _ _ _ _ _ _ Hi Hj H1 H2 Hs).
    rewrite (bivar_hit_primary _ _ _ _ _ Hi Hj (stored_present _ _ _ _)).
    repeat split; auto.
Qed.


(** C4 (unknown feature rejection). A single-feature request, or a
    bivariate request, that names a feature absent from [features_list]
    ends with the exception of [list.index] (Python's [ValueError], the
    spec's UnknownFeature) and leaves the world untouched: no call is
    logged and no file changes. *)
Theorem unknown_feature_rejected (w : World) :
  (forall client_id feature,
      feature ∉ features_list ->
      graph_feature client_id feature w = (Raise ValueError, w))
  /\ (forall feature_1 feature_2,
      feature_1 ∉ features_list \/ feature_2 ∉ features_list ->
      bivar feature_1 feature_2 w = (Raise ValueError, w)).
Proof.
  split.
  - intros client_id feature H. rewrite graph_feature_unfold. unfold bind.
    rewrite (index_missing _ _ _ H). reflexivity.
  - intros feature_1 feature_2 H. unfold bivar. unfold bind at 1.
    destruct (list_index features_list feature_1) as [i|] eqn:E1.
    + rewrite (index_found _ _ _ _ E1). unfold bind at 1.
      destruct H as [H | H].
      * exfalso. apply H. apply list_index_lookup in E1.
        eapply list_elem_of_lookup_2. exact E1.
      * rewrite (index_missing _ _ _ H). reflexivity.
    + unfold index. rewrite E1. reflexivity.
Qed.

(** C5 (size hint). With a catalog whose categorical and numeric lists
    share no name, [img_size a b] is ['large'] exactly when one of the two
    features is categorical, the other is not, and that other one is
    numeric; it is ['normal'] otherwise, in particular when both are
    categorical, when both are numeric, and when one of them is in neither
    list. *)
Theorem img_size_large_iff_mixed (a b : string) :
  (forall x, x ∈ cat_col -> x ∈ num_col -> False) ->
  (img_size a b = "large" <->
     (a ∈ cat_col /\ (b ∉ cat_col) /\ b ∈ num_col)
     \/ (b ∈ cat_col /\ (a ∉ cat_col) /\ a ∈ num_col))
  /\ (img_size a b <> "large" -> img_size a b = "normal")
  /\ (a ∈ cat_col -> b ∈ cat_col -> img_size a b = "normal")
  /\ (a ∈ num_col -> b ∈ num_col -> img_size a b = "normal")
  /\ (((a ∉ cat_col) /\ (a ∉ num_col)) \/ ((b ∉ cat_col) /\ (b ∉ num_col)) ->
      img_size a b = "normal").
Proof.
  intros Hdisj. unfold img_size.
  pose proof (py_in_elem_of a cat_col) as Hac.
  pose proof (py_in_elem_of b cat_col) as Hbc.
  pose proof (py_in_elem_of a num_col) as Han.
  pose proof (py_in_elem_of b num_col) as Hbn.
  pose proof (Hdisj a) as Da. pose proof (Hdisj b) as Db.
  destruct (py_in a cat_col); destruct (py_in b num_col);
    destruct (py_in a num_col); destruct (py_in b cat_col); simpl;
    (split; [split; [intros E | intros HH] | repeat split; intros]);
    try reflexivity; try discriminate; try congruence;
    try (exfalso; intuition congruence);
    intuition congruence.
Qed.

(** C6, as the code has it (max_features is not checked by the fetcher).
    [graph_features_global_impact] treats every integer alike, inside or
    outside the 5..30 of the slider: a value whose file is present is
    answered from the store; a value whose file is absent is sent to the
    service as [max_feat], and the run ends as that call and its stream
    end. No run ends with a validation failure. *)
Theorem global_impact_any_max_feat (max_feat : Z) (w : World) :
  (is_Some (files w !! gfgi_path max_feat) ->
     graph_features_global_impact max_feat w = (Ok (gfgi_path max_feat), w))
  /\ (files w !! gfgi_path max_feat = None ->
     graph_features_global_impact max_feat w
     = match server (calls w) (gfgi_call max_feat) with
       | Raised e => (Raise (NetError e), log_call (gfgi_call max_feat) w)
       | Returned r =>
           (drained r (gfgi_path max_feat),
            stored (gfgi_path max_feat) (gfgi_call max_feat) r w)
       end).
Proof.
  rewrite global_impact_unfold. split.
  - apply cache_aside_hit.
  - intros Hp. destruct (server (calls w) (gfgi_call max_feat)) eqn:Hs.
    + apply cache_aside_raised; assumption.
    + apply cache_aside_returned; assumption.
Qed.

(** ** Which calls each operation issues *)

Lemma issues_cache_aside p c w :
  issues (cache_aside p c) w [] \/ issues (cache_aside p c) w [c].
Proof.
  unfold issues. destruct (files w !! p) eqn:Hp.
  - left. rewrite cache_aside_hit; [| rewrite Hp; eauto].
    simpl. symmetry. apply app_nil_r.
  - right. destruct (server (calls w) c) eqn:Hs.
    + rewrite (cache_aside_raised _ _ _ _ Hp Hs). reflexivity.
    + rewrite (cache_aside_returned _ _ _ _ Hp Hs). reflexivity.
Qed.

Lemma passes_timeout_cache_aside p c w :
  passes_timeout (call_timeout c) (cache_aside p c) w.
Proof.
  destruct (issues_cache_aside p c w) as [H | H].
  - exists []. split; [exact H | constructor].
  - exists [c]. split; [exact H | repeat constructor].
Qed.

Lemma passes_timeout_graph_feature client_id feature w :
  passes_timeout (Some timeout) (graph_feature client_id feature) w.
Proof.
  rewrite graph_feature_unfold. unfold passes_timeout, issues, bind, index.
  destruct (list_index features_list feature) as [i|]; simpl.
  - apply (passes_timeout_cache_aside _ (feature_call client_id feature)).
  - exists []. split; [symmetry; apply app_nil_r | constructor].
Qed.

Lemma issues_bivar feature_1 feature_2 w :
  issues (bivar feature_1 feature_2) w []
  \/ issues (bivar feature_1 feature_2) w [bivar_call feature_1 feature_2].
Proof.
  unfold issues.
  destruct (list_index features_list feature_1) as [i|] eqn:Hi.
  2:{ left. unfold bivar, bind, index. rewrite Hi. simpl.
      symmetry. apply app_nil_r. }
  destruct (list_index features_list feature_2) as [j|] eqn:Hj.
  2:{ left. unfold bivar, bind, index. rewrite Hi, Hj. simpl.
      symmetry. apply app_nil_r. }
  destruct (files w !! bivar_path (Z.of_nat i) (Z.of_nat j)) eqn:H1.
  { left. rewrite (bivar_hit_primary _ _ _ _ _ Hi Hj); [| rewrite H1; eauto].
    simpl. symmetry. apply app_nil_r. }
  destruct (files w !! bivar_path (Z.of_nat j) (Z.of_nat i)) eqn:H2.
  { left. rewrite (bivar_hit_reverse _ _ _ _ _ Hi Hj H1); [| rewrite H2; eauto].
    simpl. symmetry. apply app_nil_r. }
  right. destruct (server (calls w) (bivar_call feature_1 feature_2)) eqn:Hs.
  - rewrite (bivar_miss_raised _ _ _ _ _ _ Hi Hj H1 H2 Hs). reflexivity.
  - rewrite (bivar_miss_returned _ _ _ _ _ _ Hi Hj H1 H2 Hs). reflexivity.
Qed.

Lemma issues_load_id_list w :
  issues load_id_list w [mkCall (url_server +:+ "/clients_list") false []
                                (Some timeout)].
Proof.
  unfold issues, load_id_list, bind, requests_get, lift.
  destruct (server _ _) as [e | r]; [reflexivity |].
  destruct (json r) as [d |]; [| reflexivity].
  destruct (subscript d "id_list"); reflexivity.
Qed.

Lemma issues_get_feature_lists w :
  issues get_feature_lists w [mkCall (url_server +:+ "/feature_lists") false []
                                     (Some timeout)].
Proof.
  unfold issues, get_feature_lists, bind, requests_get, lift, ret.
  destruct (server _ _) as [e | r]; [reflexivity |].
  destruct (json r) as [d |]; [| reflexivity].
  destruct (subscript d "all"); [| reflexivity].
  destruct (subscript d "cat"); [| reflexivity].
  destruct (subscript d "num"); reflexivity.
Qed.

Lemma issues_get_feature_selection_list client_id is_wf filter w :
  issues (get_feature_selection_list client_id is_wf filter) w
    [mkCall (url_server +:+ "/" +:+ str_int client_id +:+ "/feature_selection")
            false [("is_wf", PBool is_wf); ("filter", PStr filter)]
            (Some timeout)].
Proof.
  unfold issues, get_feature_selection_list, bind, requests_get, lift.
  destruct (server _ _) as [e | r]; [reflexivity |].
  destruct (json r) as [d |]; [| reflexivity].
  destruct (subscript d "feature_selection"); reflexivity.
Qed.

Lemma set_gauge_run client_id w :
  set_gauge client_id w
  = (gauge_result (server (calls w) (score_call client_id)),
     log_call (score_call client_id) w).
Proof.
  unfold set_gauge, gauge_result, bind, requests_get, lift, ret.
  fold (score_call client_id).
  destruct (server _ _) as [e | r]; [reflexivity |].
  destruct (json r) as [d |]; [| reflexivity].
  destruct (subscript d "score") as [score |]; [| reflexivity].
  destruct (ge_half score) as [c |]; reflexivity.
Qed.

(** C7 (timeouts), evaluated on the code. The three JSON loaders and the
    three single-key fetchers pass [timeout=30] with every call they make,
    and [bivar] passes [timeout=60]; but the one call of [set_gauge], to the
    score endpoint, is made with no [timeout] argument at all, which for
    [requests] means waiting without bound. *)
Theorem set_gauge_call_has_no_timeout (w : World) :
  passes_timeout (Some 30%Z) load_id_list w
  /\ passes_timeout (Some 30%Z) get_feature_lists w
  /\ (forall client_id is_wf filter,
        passes_timeout (Some 30%Z)
          (get_feature_selection_list client_id is_wf filter) w)
  /\ (forall max_feat,
        passes_timeout (Some 30%Z) (graph_features_global_impact max_feat) w)
  /\ (forall client_id max_feat,
        passes_timeout (Some 30%Z)
          (graph_features_local_impact client_id max_feat) w)
  /\ (forall client_id feature,
        passes_timeout (Some 30%Z) (graph_feature client_id feature) w)
  /\ (forall feature_1 feature_2,
        passes_timeout (Some 60%Z) (bivar feature_1 feature_2) w)
  /\ (forall client_id,
        issues (set_gauge client_id) w [score_call client_id]
        /\ call_timeout (score_call client_id) = None
        /\ passes_timeout None (set_gauge client_id) w).
Proof.
  repeat apply conj.
  - eexists. split; [apply issues_load_id_list | repeat constructor].
  - eexists. split; [apply issues_get_feature_lists | repeat constructor].
  - intros. eexists.
    split; [apply issues_get_feature_selection_list | repeat constructor].
  - intros. rewrite global_impact_unfold.
    apply (passes_timeout_cache_aside _ (gfgi_call max_feat)).
  - intros. rewrite local_impact_unfold.
    apply (passes_timeout_cache_aside _ (gfli_call client_id max_feat)).
  - intros. apply passes_timeout_graph_feature.
  - intros. destruct (issues_bivar feature_1 feature_2 w) as [H | H].
    + exists []. split; [exact H | constructor].
    + eexists. split; [exact H | repeat constructor].
  - intros client_id.
    assert (H : issues (set_gauge client_id) w [score_call client_id]).
    { unfold issues. rewrite set_gauge_run. reflexivity. }
    split; [exact H |]. split; [reflexivity |].
    exists [score_call client_id]. split; [exact H | repeat constructor].
Qed.

(** C8 (the gauge bypasses the store). For every client id and from every
    world, [set_gauge] makes exactly one call, the one to the score
    endpoint [url_server/<client_id>]; it leaves every file of the scratch
    directory as it was; what it returns is the same whatever the scratch
    directory holds; and a second request makes the call again. *)
Theorem gauge_bypasses_store (client_id : Z) (w : World) :
  issues (set_gauge client_id) w [score_call client_id]
  /\ call_url (score_call client_id) = url_server +:+ "/" +:+ str_int client_id
  /\ files (snd (set_gauge client_id w)) = files w
  /\ (forall fs,
        fst (set_gauge client_id (set_files fs w))
        = fst (set_gauge client_id w))
  /\ (forall fs,
        files (snd (set_gauge client_id (set_files fs w))) = fs)
  /\ calls (snd (set_gauge client_id (snd (set_gauge client_id w))))
     = calls w ++ [score_call client_id; score_call client_id].
Proof.
  unfold issues. split; [| split; [| split; [| split; [| split]]]].
  - rewrite set_gauge_run. reflexivity.
  - reflexivity.
  - rewrite set_gauge_run. reflexivity.
  - intros fs. rewrite !set_gauge_run. reflexivity.
  - intros fs. rewrite set_gauge_run. reflexivity.
  - rewrite !set_gauge_run. simpl. rewrite <- app_assoc. reflexivity.
Qed.

(** C9 (the size tag is symmetric). [img_size a b] and [img_size b a] are
    the same tag, and so are the tags of any two results that [bivar a b]
    and [bivar b a] return, from whatever worlds; that tag is ['normal'] or
    ['large']. *)
Theorem img_size_symmetric (a b : string) :
  img_size a b = img_size b a
  /\ (forall w1 w2 p1 p2 s1 s2 w1' w2',
        bivar a b w1 = (Ok (p1, s1), w1') ->
        bivar b a w2 = (Ok (p2, s2), w2') ->
        s1 = s2 /\ (s1 = "normal" \/ s1 = "large")).
Proof.
  assert (Hsym : img_size a b = img_size b a).
  { unfold img_size.
    destruct (py_in a cat_col), (py_in b num_col), (py_in a num_col),
      (py_in b cat_col); reflexivity. }
  split; [exact Hsym |].
  intros w1 w2 p1 p2 s1 s2 w1' w2' H1 H2.
  apply bivar_size in H1, H2. subst s1 s2. split; [exact Hsym |].
  unfold img_size.
  destruct (_ || _); [right | left]; reflexivity.
Qed.

(** C10 (title of the gauge). When the service answers the score call with
    a JSON object whose ["score"] is the float [score], [set_gauge] returns
    a figure that shows [score] and whose title is ['Crédit non accepté']
    if and only if [score >= 0.5], and ['Crédit accepté'] if and only if
    not. The test is the IEEE comparison; on a well-formed binary64 float
    it holds exactly when the number is at least one half. *)
Theorem gauge_title (client_id : Z) (w : World) (r : Response) (d : Json)
    (score : spec_float) :
  server (calls w) (score_call client_id) = Returned r ->
  json r = Ok d ->
  subscript d "score" = Ok (JFloat score) ->
  exists fig,
    fst (set_gauge client_id w) = Ok fig
    /\ fig_value fig = JFloat score
    /\ (fig_title fig = "Crédit non accepté" <-> SFleb half score = true)
    /\ (fig_title fig = "Crédit accepté" <-> SFleb half score = false)
    /\ (valid_binary 53 1024 score = true ->
        (fig_title fig = "Crédit non accepté" <-> at_least_half score)).
Proof.
  intros Hs Hd Hscore. rewrite set_gauge_run. unfold gauge_result.
  rewrite Hs, Hd, Hscore. simpl.
  eexists. split; [reflexivity |]. simpl. split; [reflexivity |].
  assert (Ht : (if SFleb half score then "Crédit non accepté"
                else "Crédit accepté") = "Crédit non accepté"
               <-> SFleb half score = true).
  { destruct (SFleb half score); split; intros H;
      try reflexivity; discriminate H. }
  split; [exact Ht | split].
  - destruct (SFleb half score); split; intros H;
      try reflexivity; discriminate H.
  - intros Hv. rewrite Ht. apply SFleb_half_spec, Hv.
Qed.

(** ** Cache keys are unambiguous *)

Lemma uint_sep_inj_gen (c : ascii) (d1 : uint) :
  is_digit c = false ->
  forall (d2 : uint) (s1 s2 : string),
    NilEmpty.string_of_uint d1 +:+ String c s1
    = NilEmpty.string_of_uint d2 +:+ String c s2 ->
    d1 = d2 /\ s1 = s2.
Proof.
  intros Hc.
  induction d1 as [|d1 IH|d1 IH|d1 IH|d1 IH|d1 IH|d1 IH|d1 IH|d1 IH|d1 IH|d1 IH];
    intros [|d2|d2|d2|d2|d2|d2|d2|d2|d2|d2] s1 s2; simpl; intros H;
    try discriminate H;
    try (injection H as H; destruct (IH _ _ _ H) as [-> ->]; split; reflexivity);
    try (injection H as -> _; discriminate Hc);
    try (injection H as <- _; discriminate Hc).
  injection H as ->. split; reflexivity.
Qed.

(** [str(z)] is an optional minus sign and at least one digit. *)
Lemma str_int_shape (z : Z) :
  exists d, d <> Nil
    /\ ((Z.to_int z = Pos d /\ str_int z = NilEmpty.string_of_uint d)
        \/ (Z.to_int z = Neg d
            /\ str_int z = String "-" (NilEmpty.string_of_uint d))).
Proof.
  unfold str_int. destruct z as [|p|p]; simpl.
  - exists (D0 Nil). split; [discriminate | left; split; reflexivity].
  - exists (Pos.to_uint p). split; [apply Unsigned.to_uint_nonnil |].
    left. split; [reflexivity |].
    apply nilzero_nonnil, Unsigned.to_uint_nonnil.
  - exists (Pos.to_uint p). split; [apply Unsigned.to_uint_nonnil |].
    right. split; [reflexivity |]. f_equal.
    apply nilzero_nonnil, Unsigned.to_uint_nonnil.
Qed.

Lemma str_int_sep_inj (c : ascii) (x y : Z) (s1 s2 : string) :
  is_digit c = false ->
  str_int x +:+ String c s1 = str_int y +:+ String c s2 ->
  x = y /\ s1 = s2.
Proof.
  intros Hc H.
  destruct (str_int_shape x) as (dx & Nx & [[Ex Sx] | [Ex Sx]]);
    destruct (str_int_shape y) as (dy & Ny & [[Ey Sy] | [Ey Sy]]);
    rewrite Sx, Sy in H.
  - destruct (uint_sep_inj_gen c dx Hc _ _ _ H) as [-> ->].
    split; [| reflexivity]. apply DecimalZ.to_int_inj. congruence.
  - exfalso. destruct dx; simpl in H; try discriminate H. apply Nx. reflexivity.
  - exfalso. destruct dy; simpl in H; try discriminate H. apply Ny. reflexivity.
  - simpl in H. injection H as H.
    destruct (uint_sep_inj_gen c dx Hc _ _ _ H) as [-> ->].
    split; [| reflexivity]. apply DecimalZ.to_int_inj. congruence.
Qed.

Lemma gfgi_path_inj n n' : gfgi_path n = gfgi_path n' -> n = n'.
Proof.
  intros H. unfold gfgi_path in H. do 2 apply append_inv_head in H.
  apply (str_int_sep_inj "." _ _ _ _ eq_refl) in H. apply H.
Qed.

Lemma gfli_path_inj c n c' n' :
  gfli_path c n = gfli_path c' n' -> c = c' /\ n = n'.
Proof.
  intros H. unfold gfli_path in H. do 2 apply append_inv_head in H.
  apply (str_int_sep_inj "_" _ _ _ _ eq_refl) in H. destruct H as [-> H].
  apply (str_int_sep_inj "." _ _ _ _ eq_refl) in H. split; [reflexivity | apply H].
Qed.

Lemma feature_path_inj c i c' i' :
  feature_path c i = feature_path c' i' -> c = c' /\ i = i'.
Proof.
  intros H. unfold feature_path in H. do 2 apply append_inv_head in H.
  apply (str_int_sep_inj "_" _ _ _ _ eq_refl) in H. destruct H as [-> H].
  apply (str_int_sep_inj "." _ _ _ _ eq_refl) in H. split; [reflexivity | apply H].
Qed.

Lemma bivar_path_inj i j i' j' :
  bivar_path i j = bivar_path i' j' -> i = i' /\ j = j'.
Proof.
  intros H. unfold bivar_path in H. do 2 apply append_inv_head in H.
  apply (str_int_sep_inj "_" _ _ _ _ eq_refl) in H. destruct H as [-> H].
  apply (str_int_sep_inj "." _ _ _ _ eq_refl) in H. split; [reflexivity | apply H].
Qed.

(** X1. Each kind of cache key determines the numbers it was built from:
    two global-impact requests, two local-impact requests, two
    single-feature requests or two bivariate requests share a file only if
    their counts, client ids and positions are the same. *)
Theorem cache_keys_injective :
  (forall n n', gfgi_path n = gfgi_path n' -> n = n')
  /\ (forall c n c' n', gfli_path c n = gfli_path c' n' -> c = c' /\ n = n')
  /\ (forall c i c' i',
        feature_path c i = feature_path c' i' -> c = c' /\ i = i')
  /\ (forall i j i' j', bivar_path i j = bivar_path i' j' -> i = i' /\ j = j').
Proof.
  split; [exact gfgi_path_inj | split; [exact gfli_path_inj | split]].
  - exact feature_path_inj.
  - exact bivar_path_inj.
Qed.

Lemma bivar_path_not_other (i j : Z) :
  (forall n, gfgi_path n <> bivar_path i j)
  /\ (forall c n, gfli_path c n <> bivar_path i j)
  /\ (forall c i', feature_path c i' <> bivar_path i j).
Proof.
  repeat apply conj; intros;
    unfold gfgi_path, gfli_path, feature_path, bivar_path; intros H;
    apply append_inv_head in H; simpl in H; discriminate H.
Qed.

(** X2. Keys of different kinds never coincide: a global-impact file, a
    local-impact file, a single-feature file and a bivariate file are four
    different files, whatever the arguments. *)
Theorem cache_keys_of_different_kinds_differ :
  (forall n c m, gfgi_path n <> gfli_path c m)
  /\ (forall n c i, gfgi_path n <> feature_path c i)
  /\ (forall n i j, gfgi_path n <> bivar_path i j)
  /\ (forall c m c' i, gfli_path c m <> feature_path c' i)
  /\ (forall c m i j, gfli_path c m <> bivar_path i j)
  /\ (forall c i i' j', feature_path c i <> bivar_path i' j').
Proof.
  repeat apply conj; intros;
    unfold gfgi_path, gfli_path, feature_path, bivar_path; intros H;
    apply append_inv_head in H; simpl in H; discriminate H.
Qed.

(** ** Requests, one at a time *)

Lemma misses_dec (q : Request) (w : World) : misses q w \/ ~ misses q w.
Proof.
  destruct q as [c | n | c n | c f | a b | c b f | |]; simpl; auto.
  - destruct (files w !! gfgi_path n); [right; discriminate | left; reflexivity].
  - destruct (files w !! gfli_path c n); [right; discriminate | left; reflexivity].
  - destruct (list_index features_list f) as [i|].
    + destruct (files w !! feature_path c (Z.of_nat i)) eqn:E.
      * right. intros (i' & [= <-] & H). congruence.
      * left. eauto.
    + right. intros (i' & H & _). discriminate H.
  - destruct (list_index features_list a) as [i|].
    2:{ right. intros (i' & j' & H & _). discriminate H. }
    destruct (list_index features_list b) as [j|].
    2:{ right. intros (i' & j' & _ & H & _). discriminate H. }
    destruct (files w !! bivar_path (Z.of_nat i) (Z.of_nat j)) eqn:E1.
    { right. intros (i' & j' & [= <-] & [= <-] & H & _). congruence. }
    destruct (files w !! bivar_path (Z.of_nat j) (Z.of_nat i)) eqn:E2.
    { right. intros (i' & j' & [= <-] & [= <-] & _ & H). congruence. }
    left. eauto 6.
  - destruct (st_cache_holds IdList w); [right; discriminate | left; reflexivity].
  - destruct (st_cache_holds FeatureLists w);
      [right; discriminate | left; reflexivity].
Qed.

(** The JSON loaders leave the files alone. *)
Lemma load_id_list_files (w : World) : files (snd (load_id_list w)) = files w.
Proof.
  unfold load_id_list, bind, requests_get, lift.
  destruct (server _ _) as [e | r]; [reflexivity |].
  destruct (json r) as [d |]; [| reflexivity].
  destruct (subscript d "id_list"); reflexivity.
Qed.

Lemma get_feature_lists_files (w : World) :
  files (snd (get_feature_lists w)) = files w.
Proof.
  unfold get_feature_lists, bind, requests_get, lift, ret.
  destruct (server _ _) as [e | r]; [reflexivity |].
  destruct (json r) as [d |]; [| reflexivity].
  destruct (subscript d "all"); [| reflexivity].
  destruct (subscript d "cat"); [| reflexivity].
  destruct (subscript d "num"); reflexivity.
Qed.

Lemma get_feature_selection_list_files client_id is_wf filter (w : World) :
  files (snd (get_feature_selection_list client_id is_wf filter w)) = files w.
Proof.
  unfold get_feature_selection_list, bind, requests_get, lift.
  destruct (server _ _) as [e | r]; [reflexivity |].
  destruct (json r) as [d |]; [| reflexivity].
  destruct (subscript d "feature_selection"); reflexivity.
Qed.

Lemma not_None_is_Some {A} (o : option A) : o <> None -> is_Some o.
Proof. destruct o; [eauto | congruence]. Qed.

(** A request that does not miss leaves the world as it is. *)
Lemma exec_hit (q : Request) (w : World) : ~ misses q w -> exec q w = w.
Proof.
  destruct q as [c | n | c n | c f | a b | c b f | |]; simpl; intros H;
    try (exfalso; apply H; exact I).
  - rewrite global_impact_unfold, cache_aside_hit; [reflexivity |].
    apply not_None_is_Some, H.
  - rewrite local_impact_unfold, cache_aside_hit; [reflexivity |].
    apply not_None_is_Some, H.
  - rewrite graph_feature_unfold. unfold bind, index.
    destruct (list_index features_list f) as [i|]; [| reflexivity]. simpl.
    rewrite cache_aside_hit; [reflexivity |].
    apply not_None_is_Some. intros E. apply H. eauto.
  - destruct (list_index features_list a) as [i|] eqn:Hi.
    2:{ unfold bivar, bind, index. rewrite Hi. reflexivity. }
    destruct (list_index features_list b) as [j|] eqn:Hj.
    2:{ unfold bivar, bind, index. rewrite Hi, Hj. reflexivity. }
    destruct (files w !! bivar_path (Z.of_nat i) (Z.of_nat j)) eqn:E1.
    { rewrite (bivar_hit_primary _ _ _ _ _ Hi Hj); [reflexivity |].
      rewrite E1. eauto. }
    rewrite (bivar_hit_reverse _ _ _ _ _ Hi Hj E1); [reflexivity |].
    apply not_None_is_Some. intros E2. apply H. eauto 6.
  - destruct (st_cache_holds IdList w); [reflexivity |].
    exfalso. apply H. reflexivity.
  - destruct (st_cache_holds FeatureLists w); [reflexivity |].
    exfalso. apply H. reflexivity.
Qed.

(** A request that misses makes its call; what it leaves depends on the
    answer alone. *)
Lemma exec_miss (q : Request) (w : World) :
  misses q w ->
  exec q w
  = match server (calls w) (call_of q), target_key q with
    | Returned r, Some k => stored k (call_of q) r w
    | _, _ => log_call (call_of q) w
    end.
Proof.
  destruct q as [c | n | c n | c f | a b | c b f | |]; simpl; intros H.
  - rewrite set_gauge_run. simpl. destruct (server _ _); reflexivity.
  - rewrite global_impact_unfold.
    destruct (server (calls w) (gfgi_call n)) eqn:Hs.
    + rewrite (cache_aside_raised _ _ _ _ H Hs). reflexivity.
    + rewrite (cache_aside_returned _ _ _ _ H Hs). reflexivity.
  - rewrite local_impact_unfold.
    destruct (server (calls w) (gfli_call c n)) eqn:Hs.
    + rewrite (cache_aside_raised _ _ _ _ H Hs). reflexivity.
    + rewrite (cache_aside_returned _ _ _ _ H Hs). reflexivity.
  - destruct H as (i & Hi & Hp). rewrite graph_feature_unfold.
    unfold bind. rewrite (index_found _ _ _ _ Hi), Hi.
    destruct (server (calls w) (feature_call c f)) eqn:Hs.
    + rewrite (cache_aside_raised _ _ _ _ Hp Hs). reflexivity.
    + rewrite (cache_aside_returned _ _ _ _ Hp Hs). reflexivity.
  - destruct H as (i & j & Hi & Hj & H1 & H2). rewrite Hi, Hj.
    destruct (server (calls w) (bivar_call a b)) eqn:Hs.
    + rewrite (bivar_miss_raised _ _ _ _ _ _ Hi Hj H1 H2 Hs). reflexivity.
    + rewrite (bivar_miss_returned _ _ _ _ _ _ Hi Hj H1 H2 Hs). reflexivity.
  - pose proof (issues_get_feature_selection_list c b f w) as Hc.
    pose proof (get_feature_selection_list_files c b f w) as Hf.
    unfold issues in Hc.
    destruct (snd (get_feature_selection_list c b f w)) as [fs cs].
    simpl in *. subst. destruct (server _ _); reflexivity.
  - rewrite H. pose proof (issues_load_id_list w) as Hc.
    pose proof (load_id_list_files w) as Hf. unfold issues in Hc.
    destruct (snd (load_id_list w)) as [fs cs].
    simpl in *. subst. destruct (server _ _); reflexivity.
  - rewrite H. pose proof (issues_get_feature_lists w) as Hc.
    pose proof (get_feature_lists_files w) as Hf. unfold issues in Hc.
    destruct (snd (get_feature_lists w)) as [fs cs].
    simpl in *. subst. destruct (server _ _); reflexivity.
Qed.

Lemma str_int_inj (x y : Z) : str_int x = str_int y -> x = y.
Proof.
  intros H.
  assert (H' : str_int x +:+ String "." "" = str_int y +:+ String "." "")
    by (rewrite H; reflexivity).
  apply (str_int_sep_inj "." _ _ _ _ eq_refl) in H'. apply H'.
Qed.

(** The first character of [str(z)] is a digit or the minus sign. *)
Lemma str_int_head (z : Z) (s : string) :
  exists ch rest,
    str_int z +:+ s = String ch rest /\ (is_digit ch = true \/ ch = "-"%char).
Proof.
  destruct (str_int_shape z) as (d & Nd & [[_ ->] | [_ ->]]).
  - destruct d; try (exfalso; apply Nd; reflexivity);
      simpl; eexists _, _; (split; [reflexivity | left; reflexivity]).
  - simpl. eexists _, _. split; [reflexivity | right; reflexivity].
Qed.

Lemma call_of_inj (q q' : Request) : call_of q = call_of q' -> q = q'.
Proof.
  assert (Hslash : is_digit "/" = false) by reflexivity.
  assert (Hhead : forall z s (P : Prop) ch rest,
             String ch rest = str_int z +:+ s ->
             is_digit ch = false -> ch <> "-"%char -> P).
  { intros z s P ch rest H Hd Hm.
    destruct (str_int_head z s) as (ch' & rest' & E & Hc).
    rewrite E in H. injection H as -> _.
    destruct Hc as [Hc | Hc]; [congruence | contradiction]. }
  destruct q as [c | n | c n | c f | a b | c b f | |];
    destruct q' as [c' | n' | c' n' | c' f' | a' b' | c' b' f' | |];
    unfold call_of, score_call, gfgi_call, gfli_call, feature_call, bivar_call;
    intros H; try reflexivity; injection H; clear H; intros;
    try discriminate;
    repeat match goal with
    | E : _ :: _ = _ :: _ |- _ => injection E; clear E; intros
    | E : (_, _) = (_, _) |- _ => injection E; clear E; intros
    | E : PInt _ = PInt _ |- _ => injection E; clear E; intros
    | E : PStr _ = PStr _ |- _ => injection E; clear E; intros
    | E : PBool _ = PBool _ |- _ => injection E; clear E; intros
    end;
    subst; try discriminate; try reflexivity.
  all: simpl in *;
    match goal with E : _ = _ |- _ => rename E into H end.
  - f_equal. apply str_int_inj, H.
  - exfalso.
    apply (Hhead c' "/local_impact" False "g"%char "lobal_impact" H);
      [reflexivity | discriminate].
  - exfalso. symmetry in H.
    apply (Hhead c "/local_impact" False "g"%char "lobal_impact" H);
      [reflexivity | discriminate].
  - apply (str_int_sep_inj "/" _ _ _ _ Hslash) in H. destruct H as [-> _].
    reflexivity.
  - apply (str_int_sep_inj "/" _ _ _ _ Hslash) in H. destruct H as [-> _].
    reflexivity.
  - apply (str_int_sep_inj "/" _ _ _ _ Hslash) in H. destruct H as [-> _].
    reflexivity.
Qed.

(** X3. The call identifies the request: two requests that would send the
    same [requests.get] (same URL, parameters, stream flag and timeout)
    are the same function called with the same arguments. *)
Theorem call_of_injective (q q' : Request) :
  call_of q = call_of q' <-> q = q'.
Proof. split; [apply call_of_inj | intros ->; reflexivity]. Qed.


Lemma misses_key_absent (q : Request) (w : World) (k : string) :
  misses q w -> target_key q = Some k -> files w !! k = None.
Proof.
  destruct q as [c | n | c n | c f | a b | c b f | |]; simpl;
    intros H E; try discriminate E.
  - injection E as <-. exact H.
  - injection E as <-. exact H.
  - destruct H as (i & Hi & Hp). rewrite Hi in E. injection E as <-. exact Hp.
  - destruct H as (i & j & Hi & Hj & H1 & _). rewrite Hi, Hj in E.
    injection E as <-. exact H1.
Qed.

(** What one request does to the files: nothing, or one new file at the
    key of the request, holding what was copied of the answer. *)
Lemma exec_files_cases (q : Request) (w : World) :
  files (exec q w) = files w
  \/ exists k r,
       misses q w /\ target_key q = Some k /\ files w !! k = None
       /\ server (calls w) (call_of q) = Returned r
       /\ files (exec q w) = <[k := copied r]> (files w).
Proof.
  destruct (misses_dec q w) as [Hm | Hm].
  - rewrite (exec_miss q w Hm).
    destruct (server (calls w) (call_of q)) as [e | r] eqn:Hs; [left; reflexivity |].
    destruct (target_key q) as [k |] eqn:Hk; [| left; reflexivity].
    right. exists k, r. repeat split; try assumption; try reflexivity.
    eapply misses_key_absent; eassumption.
  - left. rewrite (exec_hit q w Hm). reflexivity.
Qed.

Lemma exec_calls_cases (q : Request) (w : World) :
  (~ misses q w /\ calls (exec q w) = calls w)
  \/ (misses q w /\ calls (exec q w) = calls w ++ [call_of q]).
Proof.
  destruct (misses_dec q w) as [Hm | Hm].
  - right. split; [exact Hm |]. rewrite (exec_miss q w Hm).
    destruct (server _ _); [reflexivity |]. destruct (target_key q); reflexivity.
  - left. split; [exact Hm |]. rewrite (exec_hit q w Hm). reflexivity.
Qed.

Lemma exec_preserves (q : Request) (w : World) (p : string)
    (d : list Byte.byte) :
  files w !! p = Some d -> files (exec q w) !! p = Some d.
Proof.
  intros Hp. destruct (exec_files_cases q w) as [-> | (k & r & _ & _ & Hk & _ & ->)].
  - exact Hp.
  - rewrite lookup_insert_ne; [exact Hp |]. intros ->. congruence.
Qed.

Lemma exec_all_preserves (qs : list Request) (w : World) (p : string)
    (d : list Byte.byte) :
  files w !! p = Some d -> files (exec_all qs w) !! p = Some d.
Proof.
  revert w. induction qs as [|q qs IH]; intros w Hp; simpl; [exact Hp |].
  apply IH, exec_preserves, Hp.
Qed.

(** X4. The store only grows. Whatever sequence of requests is made, every
    file that existed keeps its content; one request creates at most one
    file, at its own key and only where there was none; so a sequence of
    [n] requests adds at most [n] files. *)
Theorem store_only_grows (qs : list Request) (w : World) :
  (forall p d, files w !! p = Some d -> files (exec_all qs w) !! p = Some d)
  /\ (forall q p,
        files (exec q w) !! p <> files w !! p ->
        target_key q = Some p /\ files w !! p = None)
  /\ size (files (exec_all qs w)) <= size (files w) + length qs.
Proof.
  split; [| split].
  - intros p d. apply exec_all_preserves.
  - intros q p Hne.
    destruct (exec_files_cases q w) as [E | (k & r & _ & Hk & Habs & _ & E)];
      rewrite E in Hne; [congruence |].
    destruct (decide (k = p)) as [-> | Hkp]; [split; assumption |].
    rewrite lookup_insert_ne in Hne by exact Hkp. congruence.
  - revert w. induction qs as [|q qs IH]; intros w; simpl; [lia |].
    specialize (IH (exec q w)).
    assert (size (files (exec q w)) <= S (size (files w))); [| lia].
    destruct (exec_files_cases q w) as [-> | (k & r & _ & _ & Habs & _ & ->)].
    + lia.
    + rewrite map_size_insert_None by exact Habs. lia.
Qed.

Lemma target_present_not_misses (q : Request) (w : World) (k : string) :
  target_key q = Some k -> is_Some (files w !! k) -> ~ misses q w.
Proof.
  intros Hk [d Hd] Hm. rewrite (misses_key_absent q w k Hm Hk) in Hd.
  discriminate Hd.
Qed.

Lemma path_returned_hit (q : Request) (w : World) (k : string) :
  target_key q = Some k -> is_Some (files w !! k) ->
  path_returned q w = Some k.
Proof.
  destruct q as [c | n | c n | c f | a b | c b f | |]; simpl;
    intros E Hk; try discriminate E.
  - injection E as <-. rewrite global_impact_unfold, cache_aside_hit by exact Hk.
    reflexivity.
  - injection E as <-. rewrite local_impact_unfold, cache_aside_hit by exact Hk.
    reflexivity.
  - destruct (list_index features_list f) as [i|] eqn:Hi; [| discriminate E].
    injection E as <-. rewrite graph_feature_unfold. unfold bind.
    rewrite (index_found _ _ _ _ Hi), cache_aside_hit by exact Hk. reflexivity.
  - destruct (list_index features_list a) as [i|] eqn:Hi; [| discriminate E].
    destruct (list_index features_list b) as [j|] eqn:Hj; [| discriminate E].
    injection E as <-.
    rewrite (bivar_hit_primary _ _ _ _ _ Hi Hj Hk). reflexivity.
Qed.

(** X5. No eviction, no invalidation. Once the file of a request is in the
    store, then after any sequence of requests whatever, the file is still
    there with the same content, and the request returns its path and
    leaves the world as it is: no call, no write. *)
Theorem cached_request_stays_cached (q : Request) (k : string)
    (d : list Byte.byte) (w : World) (qs : list Request) :
  target_key q = Some k ->
  files w !! k = Some d ->
  let w' := exec_all qs w in
  files w' !! k = Some d
  /\ path_returned q w' = Some k
  /\ exec q w' = w'.
Proof.
  intros Hk Hd w'.
  assert (Hd' : files w' !! k = Some d)
    by (apply exec_all_preserves, Hd).
  assert (Hsome : is_Some (files w' !! k)) by (rewrite Hd'; eauto).
  split; [exact Hd' | split].
  - apply path_returned_hit; assumption.
  - apply exec_hit. eapply target_present_not_misses; eassumption.
Qed.

Lemma Some_eq {A} (x y : A) : Some x = Some y -> x = y.
Proof. congruence. Qed.

Lemma target_key_inj (q q' : Request) (k : string) :
  target_key q = Some k -> target_key q' = Some k -> q = q'.
Proof.
  assert (Hname : forall f f' i i',
            list_index features_list f = Some i ->
            list_index features_list f' = Some i' ->
            Z.of_nat i = Z.of_nat i' -> f = f').
  { intros f f' i i' Hi Hi' E. apply Nat2Z.inj in E. subst i'.
    apply list_index_lookup in Hi, Hi'. congruence. }
  pose proof (bivar_path_not_other) as Hb.
  destruct q as [c | n | c n | c f | a b | c b f | |];
    destruct q' as [c' | n' | c' n' | c' f' | a' b' | c' b' f' | |];
    simpl; intros E E'; try discriminate E; try discriminate E';
    repeat match goal with
    | H : match list_index ?l ?x with _ => _ end = Some _ |- _ =>
        let i := fresh "i" in let Hi := fresh "Hi" in
        destruct (list_index l x) as [i|] eqn:Hi; [| discriminate H]
    end;
    apply Some_eq in E, E'; subst k.
  - apply gfgi_path_inj in E'. congruence.
  - exfalso. revert E'. unfold gfli_path, gfgi_path. intros H.
    apply append_inv_head in H. simpl in H. discriminate H.
  - exfalso. revert E'. unfold feature_path, gfgi_path. intros H.
    apply append_inv_head in H. simpl in H. discriminate H.
  - exfalso. symmetry in E'. eapply (proj1 (Hb _ _)), E'.
  - exfalso. revert E'. unfold gfli_path, gfgi_path. intros H.
    apply append_inv_head in H. simpl in H. discriminate H.
  - apply gfli_path_inj in E'. destruct E'. congruence.
  - exfalso. revert E'. unfold feature_path, gfli_path. intros H.
    apply append_inv_head in H. simpl in H. discriminate H.
  - exfalso. symmetry in E'. eapply (proj1 (proj2 (Hb _ _))), E'.
  - exfalso. revert E'. unfold feature_path, gfgi_path. intros H.
    apply append_inv_head in H. simpl in H. discriminate H.
  - exfalso. revert E'. unfold feature_path, gfli_path. intros H.
    apply append_inv_head in H. simpl in H. discriminate H.
  - apply feature_path_inj in E'. destruct E' as [-> E'].
    f_equal. symmetry. eapply Hname; eassumption.
  - exfalso. symmetry in E'. eapply (proj2 (proj2 (Hb _ _))), E'.
  - exfalso. eapply (proj1 (Hb _ _)), E'.
  - exfalso. eapply (proj1 (proj2 (Hb _ _))), E'.
  - exfalso. eapply (proj2 (proj2 (Hb _ _))), E'.
  - apply bivar_path_inj in E'. destruct E' as [E1 E2].
    f_equal; symmetry; eapply Hname; eassumption.
Qed.

Lemma cache_aside_path (p p' : string) (c : HttpCall) (w : World) :
  fst (cache_aside p c w) = Ok p' -> p' = p.
Proof.
  destruct (files w !! p) as [d|] eqn:Hp.
  - rewrite cache_aside_hit by (rewrite Hp; eauto). simpl. congruence.
  - destruct (server (calls w) c) as [e | r] eqn:Hs.
    + rewrite (cache_aside_raised _ _ _ _ Hp Hs). discriminate.
    + rewrite (cache_aside_returned _ _ _ _ Hp Hs). unfold drained. simpl.
      destruct (raw_end r); [discriminate | congruence].
Qed.

(** The path a fetcher returns is the file it would write, or, for
    [bivar], the file of the other order. *)
Lemma path_returned_cases (q : Request) (w : World) (p : string) :
  path_returned q w = Some p ->
  target_key q = Some p
  \/ exists a b i j,
       q = BivariatePair a b
       /\ list_index features_list a = Some i
       /\ list_index features_list b = Some j
       /\ p = bivar_path (Z.of_nat j) (Z.of_nat i).
Proof.
  destruct q as [c | n | c n | c f | a b | c b f | |]; simpl;
    try discriminate.
  - rewrite global_impact_unfold.
    destruct (fst (cache_aside _ _ w)) as [p' |] eqn:E; [| discriminate].
    apply cache_aside_path in E. intros [= <-]. left. congruence.
  - rewrite local_impact_unfold.
    destruct (fst (cache_aside _ _ w)) as [p' |] eqn:E; [| discriminate].
    apply cache_aside_path in E. intros [= <-]. left. congruence.
  - rewrite graph_feature_unfold. unfold bind, index.
    destruct (list_index features_list f) as [i|]; simpl; [| discriminate].
    destruct (fst (cache_aside _ _ w)) as [p' |] eqn:E;
      [| destruct (cache_aside _ _ w) as [[?|?] ?]; simpl in *;
         [discriminate E | discriminate]].
    destruct (cache_aside _ _ w) as [[p'' |?] w1] eqn:E'; simpl in E;
      [| discriminate E].
    injection E as ->. simpl. intros [= <-]. left.
    assert (E2 : fst (cache_aside (feature_path c (Z.of_nat i))
                        (feature_call c f) w) = Ok p') by (rewrite E'; reflexivity).
    apply cache_aside_path in E2. congruence.
  - destruct (list_index features_list a) as [i|] eqn:Hi.
    2:{ unfold bivar, bind, index. rewrite Hi. discriminate. }
    destruct (list_index features_list b) as [j|] eqn:Hj.
    2:{ unfold bivar, bind, index. rewrite Hi, Hj. discriminate. }
    destruct (files w !! bivar_path (Z.of_nat i) (Z.of_nat j)) as [d1|] eqn:H1.
    { rewrite (bivar_hit_primary _ _ _ _ _ Hi Hj) by (rewrite H1; eauto).
      simpl. intros [= <-]. left. reflexivity. }
    destruct (files w !! bivar_path (Z.of_nat j) (Z.of_nat i)) as [d2|] eqn:H2.
    { rewrite (bivar_hit_reverse _ _ _ _ _ Hi Hj H1) by (rewrite H2; eauto).
      simpl. intros [= <-]. right. eauto 10. }
    destruct (server (calls w) (bivar_call a b)) as [e | r] eqn:Hs.
    + rewrite (bivar_miss_raised _ _ _ _ _ _ Hi Hj H1 H2 Hs). discriminate.
    + rewrite (bivar_miss_returned _ _ _ _ _ _ Hi Hj H1 H2 Hs).
      unfold drained. simpl. destruct (raw_end r); [discriminate |].
      intros [= <-]. left. reflexivity.
Qed.

(** X6. Which requests a cache file belongs to. The file a fetch request
    writes on a miss identifies the request: two requests whose file to
    write is the same are the same function called with the same
    arguments. The file a request is served from identifies it up to the
    order of a pair: two requests that return the same path are the same
    request, or the two orders of one pair of features. And the two
    orders of a pair do share a file: when only one of the two files of a
    pair exists, [bivar] returns it for both orders. *)
Theorem cache_file_identifies_request (q q' : Request) :
  (forall k, target_key q = Some k -> target_key q' = Some k -> q = q')
  /\ (forall w w' p,
        path_returned q w = Some p ->
        path_returned q' w' = Some p ->
        q = q'
        \/ exists a b, q = BivariatePair a b /\ q' = BivariatePair b a)
  /\ (forall a b i j w,
        list_index features_list a = Some i ->
        list_index features_list b = Some j ->
        is_Some (files w !! bivar_path (Z.of_nat i) (Z.of_nat j)) ->
        files w !! bivar_path (Z.of_nat j) (Z.of_nat i) = None ->
        path_returned (BivariatePair a b) w
          = Some (bivar_path (Z.of_nat i) (Z.of_nat j))
        /\ path_returned (BivariatePair b a) w
           = Some (bivar_path (Z.of_nat i) (Z.of_nat j))).
Proof.
  assert (Hkey : forall a b i j,
            list_index features_list a = Some i ->
            list_index features_list b = Some j ->
            target_key (BivariatePair a b)
            = Some (bivar_path (Z.of_nat i) (Z.of_nat j))).
  { intros a b i j Hi Hj. simpl. rewrite Hi, Hj. reflexivity. }
  split; [| split].
  - intros k. apply target_key_inj.
  - intros w w' p H H'.
    apply path_returned_cases in H, H'.
    destruct H as [Hk | (a & b & i & j & -> & Hi & Hj & ->)];
      destruct H' as [Hk' | (a' & b' & i' & j' & -> & Hi' & Hj' & Hp')].
    + left. eapply target_key_inj; eassumption.
    + subst p. right. exists b', a'. split; [| reflexivity].
      eapply target_key_inj; [exact Hk | apply Hkey; assumption].
    + right. exists a, b. split; [reflexivity |].
      eapply target_key_inj; [exact Hk' | apply Hkey; assumption].
    + left. symmetry.
      eapply (target_key_inj _ _ (bivar_path (Z.of_nat i') (Z.of_nat j')));
        [apply Hkey; assumption |].
      apply bivar_path_inj in Hp'. destruct Hp' as [E1 E2].
      rewrite <- E1, <- E2. apply Hkey; assumption.
  - intros a b i j w Hi Hj Hsome Hnone. simpl. split.
    + rewrite (bivar_hit_primary _ _ _ _ _ Hi Hj Hsome). reflexivity.
    + rewrite (bivar_hit_reverse _ _ _ _ _ Hj Hi Hnone Hsome). reflexivity.
Qed.

(** X7. The log of calls over any sequence of requests: it only grows, by
    at most one call per request, and it never receives again the call of
    a request whose file is already in the store. *)
Theorem calls_over_a_sequence (qs : list Request) (w : World) :
  exists l,
    calls (exec_all qs w) = calls w ++ l
    /\ length l <= length qs
    /\ (forall q k,
          target_key q = Some k -> is_Some (files w !! k) -> call_of q ∉ l).
Proof.
  revert w. induction qs as [|q' qs IH]; intros w; simpl.
  - exists []. split; [symmetry; apply app_nil_r |].
    split; [reflexivity |]. intros q k _ _ H. inversion H.
  - destruct (IH (exec q' w)) as (l & Hl & Hlen & Hnot).
    assert (Hkeep : forall q k, target_key q = Some k ->
              is_Some (files w !! k) -> call_of q ∉ l).
    { intros q k Hk [d Hd]. apply (Hnot q k Hk).
      rewrite (exec_preserves q' w k d Hd). eauto. }
    destruct (exec_calls_cases q' w) as [[_ Hc] | [Hm Hc]]; rewrite Hc in Hl.
    + exists l. split; [exact Hl |]. split; [lia | exact Hkeep].
    + exists (call_of q' :: l). split; [rewrite Hl, <- app_assoc; reflexivity |].
      split; [simpl; lia |].
      intros q k Hk Hsome Hin. apply elem_of_cons in Hin as [Heq | Hin].
      * apply call_of_inj in Heq. subst q'.
        exact (target_present_not_misses q w k Hk Hsome Hm).
      * exact (Hkeep q k Hk Hsome Hin).
Qed.

Lemma bivar_target_reverse_absent (q : Request) (w : World) (i j : Z) :
  misses q w -> target_key q = Some (bivar_path i j) ->
  files w !! bivar_path j i = None.
Proof.
  pose proof (bivar_path_not_other i j) as (H1 & H2 & H3).
  destruct q as [c | n | c n | c f | a b | c b f | |]; simpl;
    intros Hm E; try discriminate E.
  - destruct Hm as (i' & Hi & _). rewrite Hi in E.
    apply Some_eq in E. exfalso. exact (H3 _ _ E).
  - destruct Hm as (ia & ib & Hi & Hj & _ & Hrev). rewrite Hi, Hj in E.
    apply Some_eq in E. apply bivar_path_inj in E.
    destruct E as [E1 E2]. rewrite <- E1, <- E2. exact Hrev.
Qed.

Lemma exec_pair_once (q : Request) (w : World) :
  pair_once w -> pair_once (exec q w).
Proof.
  intros Hw i j Hij.
  destruct (exec_files_cases q w) as [-> | (k & r & Hm & Hk & _ & _ & ->)];
    [apply Hw, Hij |].
  destruct (decide (k = bivar_path i j)) as [-> | N1].
  { right. rewrite lookup_insert_ne.
    - eapply bivar_target_reverse_absent; eassumption.
    - intros E. apply bivar_path_inj in E. destruct E. congruence. }
  destruct (decide (k = bivar_path j i)) as [-> | N2].
  { left. rewrite lookup_insert_ne.
    - eapply bivar_target_reverse_absent; eassumption.
    - intros E. apply bivar_path_inj in E. destruct E. congruence. }
  rewrite !lookup_insert_ne by assumption. apply Hw, Hij.
Qed.

(** X8. One file per unordered pair. If no pair of positions has a
    bivariate file in both orders (as in an empty scratch directory), then
    after any sequence of requests none has: [bivar] never writes the
    second order of a pair whose first order is stored. *)
Theorem one_file_per_pair (qs : list Request) (w : World) :
  pair_once w -> pair_once (exec_all qs w).
Proof.
  revert w. induction qs as [|q qs IH]; intros w Hw; simpl; [exact Hw |].
  apply IH, exec_pair_once, Hw.
Qed.

(** X9. The service is contacted exactly on a miss. A request makes its
    call, and only that one, if and only if it is the gauge or
    [get_feature_selection_list], or it is [load_id_list] or
    [get_feature_lists] and [st.cache] does not answer for it, or it is a
    fetcher whose file is absent (for [bivar], the files of both orders)
    and whose features are in [features_list]; otherwise it makes no call
    and leaves the world as it is. *)
Theorem call_iff_miss (q : Request) (w : World) :
  (misses q w <-> calls (exec q w) = calls w ++ [call_of q])
  /\ (~ misses q w <-> exec q w = w).
Proof.
  assert (Hne : calls w ++ [call_of q] <> calls w).
  { intros E. apply (f_equal length) in E. rewrite length_app in E.
    simpl in E. lia. }
  destruct (exec_calls_cases q w) as [[Hm Hc] | [Hm Hc]].
  - split; split; intros H.
    + contradiction.
    + exfalso. rewrite Hc in H. apply Hne. symmetry. exact H.
    + apply exec_hit, Hm.
    + exact Hm.
  - split; split; intros H.
    + exact Hc.
    + exact Hm.
    + contradiction.
    + exfalso. rewrite H in Hc. apply Hne. symmetry. exact Hc.
Qed.

Lemma misses_files (q : Request) (w w' : World) (k : string) :
  target_key q = Some k -> files w' = files w -> misses q w -> misses q w'.
Proof.
  intros Hk E. destruct q; simpl in *; try discriminate Hk; rewrite E; auto.
Qed.

Lemma path_returned_miss (q : Request) (w : World) (k : string) :
  misses q w -> target_key q = Some k ->
  path_returned q w
  = match server (calls w) (call_of q) with
    | Raised _ => None
    | Returned r => match raw_end r with None => Some k | Some _ => None end
    end.
Proof.
  destruct q as [c | n | c n | c f | a b | c b f | |]; simpl;
    intros H E; try discriminate E.
  - apply Some_eq in E. subst k. rewrite global_impact_unfold.
    destruct (server (calls w) (gfgi_call n)) as [e | r] eqn:Hs.
    + rewrite (cache_aside_raised _ _ _ _ H Hs). reflexivity.
    + rewrite (cache_aside_returned _ _ _ _ H Hs). unfold drained. simpl.
      destruct (raw_end r); reflexivity.
  - apply Some_eq in E. subst k. rewrite local_impact_unfold.
    destruct (server (calls w) (gfli_call c n)) as [e | r] eqn:Hs.
    + rewrite (cache_aside_raised _ _ _ _ H Hs). reflexivity.
    + rewrite (cache_aside_returned _ _ _ _ H Hs). unfold drained. simpl.
      destruct (raw_end r); reflexivity.
  - destruct H as (i & Hi & Hp). rewrite Hi in E. apply Some_eq in E. subst k.
    rewrite graph_feature_unfold. unfold bind. rewrite (index_found _ _ _ _ Hi).
    destruct (server (calls w) (feature_call c f)) as [e | r] eqn:Hs.
    + rewrite (cache_aside_raised _ _ _ _ Hp Hs). reflexivity.
    + rewrite (cache_aside_returned _ _ _ _ Hp Hs). unfold drained. simpl.
      destruct (raw_end r); reflexivity.
  - destruct H as (i & j & Hi & Hj & H1 & H2). rewrite Hi, Hj in E.
    apply Some_eq in E. subst k.
    destruct (server (calls w) (bivar_call a b)) as [e | r] eqn:Hs.
    + rewrite (bivar_miss_raised _ _ _ _ _ _ Hi Hj H1 H2 Hs). reflexivity.
    + rewrite (bivar_miss_returned _ _ _ _ _ _ Hi Hj H1 H2 Hs).
      unfold drained. simpl. destruct (raw_end r); reflexivity.
Qed.

(** X10. A request that failed is tried again. When [requests.get] raised,
    nothing is remembered of the failure: the fetcher returned no path, the
    file is still absent, and the next identical request makes the call
    again; if the service then answers with a complete stream, the answer
    is stored and its path returned. *)
Theorem raised_request_is_retried (q : Request) (k : string) (w : World)
    (e : net_error) (r : Response) :
  misses q w ->
  target_key q = Some k ->
  server (calls w) (call_of q) = Raised e ->
  server (calls w ++ [call_of q]) (call_of q) = Returned r ->
  raw_end r = None ->
  let w1 := exec q w in
  path_returned q w = None
  /\ w1 = log_call (call_of q) w
  /\ misses q w1
  /\ path_returned q w1 = Some k
  /\ exec q w1 = stored k (call_of q) r w1
  /\ calls (exec q w1) = calls w ++ [call_of q; call_of q].
Proof.
  intros Hm Hk Hs1 Hs2 Hend w1.
  assert (Hw1 : w1 = log_call (call_of q) w).
  { unfold w1. rewrite (exec_miss q w Hm), Hs1. reflexivity. }
  assert (Hm1 : misses q w1).
  { apply (misses_files q w w1 k Hk); [rewrite Hw1; reflexivity | exact Hm]. }
  assert (Hc1 : calls w1 = calls w ++ [call_of q])
    by (rewrite Hw1; reflexivity).
  split; [| split; [exact Hw1 | split; [exact Hm1 | split; [| split]]]].
  - rewrite (path_returned_miss q w k Hm Hk), Hs1. reflexivity.
  - rewrite (path_returned_miss q w1 k Hm1 Hk), Hc1, Hs2, Hend. reflexivity.
  - rewrite (exec_miss q w1 Hm1), Hc1, Hs2, Hk. reflexivity.
  - rewrite (exec_miss q w1 Hm1), Hc1, Hs2, Hk. unfold stored. simpl.
    rewrite Hc1, <- app_assoc. reflexivity.
Qed.


(** ** The gauge on scores that are not ordinary floats *)

(** X12. What [set_gauge] makes of the answer of the score endpoint, when
    the body is a JSON object: an integer score is refused exactly when it
    is at least one half as a number; a NaN score is shown as accepted; an
    object without a ["score"] ends in [KeyError]; a score that is a
    string, a null, a list or an object ends in [TypeError]. *)
Theorem gauge_on_other_scores (client_id : Z) (w : World) (r : Response)
    (members : list (string * Json)) :
  server (calls w) (score_call client_id) = Returned r ->
  resp_json r = Some (JObj members) ->
  (forall n,
      dict_get members "score" = Some (JInt n) ->
      exists fig,
        fst (set_gauge client_id w) = Ok fig
        /\ fig_value fig = JInt n
        /\ (fig_title fig = "Crédit non accepté" <-> (1 # 2 <= inject_Z n)%Q)
        /\ (fig_title fig = "Crédit accepté" <-> ~ (1 # 2 <= inject_Z n)%Q))
  /\ (dict_get members "score" = Some (JFloat S754_nan) ->
      exists fig,
        fst (set_gauge client_id w) = Ok fig
        /\ fig_title fig = "Crédit accepté")
  /\ (dict_get members "score" = None ->
      fst (set_gauge client_id w) = Raise KeyError)
  /\ (forall v,
      dict_get members "score" = Some v ->
      match v with
      | JStr _ | JNull | JList _ | JObj _ => True
      | _ => False
      end ->
      fst (set_gauge client_id w) = Raise TypeError).
Proof.
  intros Hs Hj. rewrite set_gauge_run. unfold gauge_result, json, subscript.
  rewrite Hs, Hj. simpl. repeat apply conj.
  - intros n Hn. rewrite Hn. simpl. eexists. split; [reflexivity |].
    split; [reflexivity |]. simpl.
    assert (Hq : (1 <=? n)%Z = true <-> (1 # 2 <= inject_Z n)%Q).
    { rewrite Z.leb_le. unfold Qle. simpl. lia. }
    destruct (1 <=? n)%Z; split; split; intros H;
      try reflexivity; try discriminate H.
    + apply Hq. reflexivity.
    + exfalso. apply H, Hq. reflexivity.
    + apply Hq in H. discriminate H.
    + intros H'. apply Hq in H'. discriminate H'.
  - intros Hn. rewrite Hn. simpl. eexists. split; reflexivity.
  - intros Hn. rewrite Hn. reflexivity.
  - intros v Hv Hkind. rewrite Hv.
    destruct v; try contradiction; reflexivity.
Qed.

(** ** The JSON loaders *)

Lemma loader_returns (c : HttpCall) (key : string) (w : World) (v : Json) :
  fst ((r <- requests_get c ;; d <- lift (json r) ;; lift (subscript d key)) w)
    = Ok v
  <-> exists r members,
        server (calls w) c = Returned r
        /\ resp_json r = Some (JObj members)
        /\ dict_get members key = Some v.
Proof.
  unfold bind, requests_get, lift, json, subscript.
  destruct (server (calls w) c) as [e | r]; simpl.
  { split; [discriminate | intros (r' & m & H & _); discriminate H]. }
  destruct (resp_json r) as [[| | | | | | members] |] eqn:Hj; simpl;
    try (split; [discriminate
                | intros (r' & m & [= <-] & H & _); congruence]).
  destruct (dict_get members key) as [v' |] eqn:Hd; simpl; split.
  - intros [= <-]. eauto.
  - intros (r' & m & [= <-] & H & Hv). congruence.
  - discriminate.
  - intros (r' & m & [= <-] & H & Hv). congruence.
Qed.

(** X13. A JSON loader returns only what the service put under its key.
    A run of the body of [load_id_list], [get_feature_lists] or
    [get_feature_selection_list] returns a value exactly when the call was
    answered by a body that is a JSON object with the member(s) asked for
    (a member given twice counts by its last value), and then returns
    those; and no call of them, answered by [st.cache] or not, touches the
    scratch directory. *)
Theorem loaders_return_members (w : World) :
  (forall v,
      fst (load_id_list w) = Ok v
      <-> exists r members,
            server (calls w) (call_of IdList) = Returned r
            /\ resp_json r = Some (JObj members)
            /\ dict_get members "id_list" = Some v)
  /\ (forall a c n,
      fst (get_feature_lists w) = Ok (a, c, n)
      <-> exists r members,
            server (calls w) (call_of FeatureLists) = Returned r
            /\ resp_json r = Some (JObj members)
            /\ dict_get members "all" = Some a
            /\ dict_get members "cat" = Some c
            /\ dict_get members "num" = Some n)
  /\ (forall client_id is_wf filter v,
      fst (get_feature_selection_list client_id is_wf filter w) = Ok v
      <-> exists r members,
            server (calls w)
              (call_of (FeatureSelection client_id is_wf filter)) = Returned r
            /\ resp_json r = Some (JObj members)
            /\ dict_get members "feature_selection" = Some v)
  /\ files (exec IdList w) = files w
  /\ files (exec FeatureLists w) = files w
  /\ (forall client_id is_wf filter,
      files (exec (FeatureSelection client_id is_wf filter) w) = files w).
Proof.
  repeat apply conj.
  - intros v. apply loader_returns.
  - intros a c n. unfold get_feature_lists, bind, requests_get, lift, ret,
      json, subscript. simpl.
    destruct (server (calls w) _) as [e | r]; simpl.
    { split; [discriminate | intros (r' & m & H & _); discriminate H]. }
    destruct (resp_json r) as [[| | | | | | members] |] eqn:Hj; simpl;
      try (split; [discriminate
                  | intros (r' & m & [= <-] & H & _); congruence]).
    destruct (dict_get members "all") as [a' |] eqn:Ha; simpl.
    2:{ split; [discriminate
               | intros (r' & m & [= <-] & H & H' & _); congruence]. }
    destruct (dict_get members "cat") as [c' |] eqn:Hc; simpl.
    2:{ split; [discriminate
               | intros (r' & m & [= <-] & H & _ & H' & _); congruence]. }
    destruct (dict_get members "num") as [n' |] eqn:Hn; simpl.
    2:{ split; [discriminate
               | intros (r' & m & [= <-] & H & _ & _ & H'); congruence]. }
    split.
    + intros [= <- <- <-]. eauto 8.
    + intros (r' & m & [= <-] & H & H1 & H2 & H3). congruence.
  - intros client_id is_wf filter v. apply loader_returns.
  - simpl. destruct (st_cache_holds IdList w);
      [reflexivity | apply load_id_list_files].
  - simpl. destruct (st_cache_holds FeatureLists w);
      [reflexivity | apply get_feature_lists_files].
  - intros client_id is_wf filter. apply get_feature_selection_list_files.
Qed.

(** ** The page *)

Lemma filter_code_known (label : string) :
  filter_code label ∈ ["current"; "previous"; "all"].
Proof.
  unfold filter_code.
  destruct (String.eqb label _); [left |].
  destruct (String.eqb label _); [right; left | right; right; left].
Qed.

(** X14. A feature menu never sends the service a filter it does not
    know: whatever the label, the call carries [filter] = ['current'],
    ['previous'] or ['all']; the first option of the radio button gives
    ['current'], the second ['previous'], and every other label, the third
    option included, gives ['all']. *)
Theorem menu_filter_is_known (client_id : Z) (is_wf : bool) (label : string)
    (w : World) :
  exists f,
    f ∈ ["current"; "previous"; "all"]
    /\ issues (feature_menu client_id is_wf label) w
         [call_of (FeatureSelection client_id is_wf f)]
    /\ (f = "current" <-> f_sublist_options !! 0 = Some label)
    /\ (f = "previous" <-> f_sublist_options !! 1 = Some label)
    /\ (f_sublist_options !! 2 = Some label -> f = "all").
Proof.
  exists (filter_code label). split; [apply filter_code_known |].
  split; [apply issues_get_feature_selection_list |].
  unfold filter_code, f_sublist_options. simpl.
  destruct (String.eqb_spec label "Features de la demande de prêt") as [-> | N1].
  { repeat split; intros H; try reflexivity; discriminate H. }
  destruct (String.eqb_spec label "Feature des prêts antérieurs") as [-> | N2].
  { repeat split; intros H; try reflexivity; discriminate H. }
  repeat split; intros H; try reflexivity; try discriminate H;
    injection H as H; congruence.
Qed.

(** X15. The page never asks for the bivariate analysis of a feature with
    itself: for twice the same name the section does nothing (no call, no
    file, nothing shown), and the only call the section can make is the
    bivariate call of its two names, which are then different. *)
Theorem no_bivariate_of_a_feature_with_itself (feature_1 feature_2 : string)
    (w : World) :
  bivar_section feature_1 feature_1 w = (Ok None, w)
  /\ (issues (bivar_section feature_1 feature_2) w []
      \/ (feature_1 <> feature_2
          /\ issues (bivar_section feature_1 feature_2) w
               [bivar_call feature_1 feature_2])).
Proof.
  split.
  - unfold bivar_section. rewrite String.eqb_refl. reflexivity.
  - unfold bivar_section.
    destruct (String.eqb_spec feature_1 feature_2) as [-> | Hne]; simpl.
    + left. unfold issues, ret. simpl. symmetry. apply app_nil_r.
    + assert (Hsame : forall l, issues (bivar feature_1 feature_2) w l ->
                issues (r <- bivar feature_1 feature_2 ;;
                        (let '(img, size) := r in
                         ret (Some (if String.eqb size "large"
                                    then ColumnWidths [3; 1]%Z
                                    else EqualColumns 2, img)))) w l).
      { unfold issues, bind. intros l H.
        destruct (bivar feature_1 feature_2 w) as [[[img size] | e] w1];
          exact H. }
      destruct (issues_bivar feature_1 feature_2 w) as [H | H].
      * left. apply Hsame, H.
      * right. split; [exact Hne | apply Hsame, H].
Qed.

(** X16. The layout of the bivariate section. When the section shows an
    image, the two names are different, the image is the one [bivar]
    returned, and the columns are the wide [3, 1] exactly when one feature
    is in [cat_col] and the other in [num_col]; they are two equal columns
    otherwise. *)
Theorem bivar_section_layout (feature_1 feature_2 : string) (w w' : World)
    (cols : Columns) (img : string) :
  bivar_section feature_1 feature_2 w = (Ok (Some (cols, img)), w') ->
  feature_1 <> feature_2
  /\ (exists size, bivar feature_1 feature_2 w = (Ok (img, size), w'))
  /\ (cols = ColumnWidths [3; 1]%Z
      <-> (feature_1 ∈ cat_col /\ feature_2 ∈ num_col)
          \/ (feature_1 ∈ num_col /\ feature_2 ∈ cat_col))
  /\ (cols = ColumnWidths [3; 1]%Z \/ cols = EqualColumns 2).
Proof.
  unfold bivar_section.
  destruct (String.eqb_spec feature_1 feature_2) as [-> | Hne]; simpl;
    [discriminate |].
  unfold bind.
  destruct (bivar feature_1 feature_2 w) as [[[img' size] | e] w1] eqn:Hb;
    [| discriminate].
  unfold ret. intros [= <- <- <-].
  split; [exact Hne |]. split; [eauto |].
  apply bivar_size in Hb. subst size. unfold img_size.
  rewrite <- !py_in_elem_of.
  destruct (py_in feature_1 cat_col), (py_in feature_2 num_col),
    (py_in feature_1 num_col), (py_in feature_2 cat_col); simpl;
    (split; [split; [intros H | intros H] | auto]);
    try reflexivity; try discriminate H; intuition congruence.
Qed.
End Dashboard.

(** ** The theorems at work on a small catalog *)

Module Witnesses.
Import Byte Examples.

(** C1 at work: AGE and EDUCATION, a cold store, a service that answers. *)
Lemma bivar_symmetry_collapse_witness :
  let w1 := mkWorld {[ "./data/tmp/bivar0_1.png" := png ]}
                    [bivar_call "AGE" "EDUCATION"] in
  bivar srv_ok all cat num "AGE" "EDUCATION" cold
  = (Ok ("./data/tmp/bivar0_1.png", "large"), w1)
  /\ bivar srv_ok all cat num "EDUCATION" "AGE" w1
     = (Ok ("./data/tmp/bivar0_1.png", "large"), w1)
  /\ files w1 !! "./data/tmp/bivar1_0.png" = None.
Proof.
  destruct (bivar_symmetry_collapse srv_ok all cat num "AGE" "EDUCATION"
              0 1 cold (mkResponse 200 None png None))
    as (H1 & H2 & _ & _ & _ & _ & H3 & _);
    [discriminate | reflexivity | reflexivity | reflexivity | reflexivity
    | reflexivity | reflexivity |].
  split; [exact H1 | split; [exact H2 | exact H3]].
Defined.

(** C2 at work: each fetcher, twice, from the cold store. *)
Lemma second_fetch_is_served_from_store_witness :
  let r := mkResponse 200 None png None in
  fetched_once (graph_features_global_impact srv_ok 20)
    "./data/tmp/gfgi_20.png" "./data/tmp/gfgi_20.png" (gfgi_call 20) r cold
  /\ fetched_once (graph_features_local_impact srv_ok 100001 16)
       "./data/tmp/gfli_100001_16.png" "./data/tmp/gfli_100001_16.png"
       (gfli_call 100001 16) r cold
  /\ fetched_once (graph_feature srv_ok all 100001 "INCOME")
       "./data/tmp/feature_100001_2.png" "./data/tmp/feature_100001_2.png"
       (feature_call 100001 "INCOME") r cold
  /\ fetched_once (bivar srv_ok all cat num "INCOME" "AGE")
       ("./data/tmp/bivar2_0.png", "normal") "./data/tmp/bivar2_0.png"
       (bivar_call "INCOME" "AGE") r cold.
Proof.
  destruct (second_fetch_is_served_from_store srv_ok all cat num cold
              (mkResponse 200 None png None)) as (H1 & H2 & H3 & H4).
  split; [| split; [| split]].
  - apply (H1 20%Z); reflexivity.
  - apply (H2 100001%Z 16%Z); reflexivity.
  - apply (proj2 (H3 100001%Z "INCOME") 2); reflexivity.
  - apply (proj2 (H4 "INCOME" "AGE") 2 0); reflexivity.
Defined.


(** C4 at work: a name that is not in the catalog. *)
Lemma unknown_feature_rejected_witness :
  graph_feature srv_ok all 100001 "NOT_A_FEATURE" cold
  = (Raise ValueError, cold)
  /\ bivar srv_ok all cat num "AGE" "NOT_A_FEATURE" cold
     = (Raise ValueError, cold).
Proof.
  assert (H : "NOT_A_FEATURE" ∉ all).
  { intros H. apply py_in_elem_of in H. discriminate H. }
  destruct (unknown_feature_rejected srv_ok all cat num cold) as (H1 & H2).
  split.
  - apply H1. exact H.
  - apply H2. right. exact H.
Defined.

(** C5 at work: the catalog of the spec's example. *)
Lemma img_size_large_iff_mixed_witness :
  img_size ["EDUCATION"] ["AGE"] "EDUCATION" "AGE" = "large"
  /\ img_size ["EDUCATION"] ["AGE"] "AGE" "AGE" = "normal".
Proof.
  assert (D : forall x : string, x ∈ ["EDUCATION"] -> x ∈ ["AGE"] -> False).
  { intros x H1 H2. apply list_elem_of_singleton in H1, H2. congruence. }
  split.
  - apply (img_size_large_iff_mixed ["EDUCATION"] ["AGE"] "EDUCATION" "AGE" D).
    left. split; [| split].
    + apply py_in_elem_of. reflexivity.
    + intros H. apply py_in_elem_of in H. discriminate H.
    + apply py_in_elem_of. reflexivity.
  - destruct (img_size_large_iff_mixed ["EDUCATION"] ["AGE"] "AGE" "AGE" D)
      as (_ & _ & _ & Hnum & _).
    apply Hnum; apply py_in_elem_of; reflexivity.
Defined.

(** C6 at work: 3 features, below the slider's minimum. *)
Lemma global_impact_any_max_feat_witness :
  graph_features_global_impact srv_ok 3 cold
  = (Ok "./data/tmp/gfgi_3.png",
     mkWorld {[ "./data/tmp/gfgi_3.png" := png ]} [gfgi_call 3]).
Proof.
  apply (global_impact_any_max_feat srv_ok 3 cold). reflexivity.
Defined.

(** C9 at work: a mixed pair, both ways round. *)
Lemma img_size_symmetric_witness :
  img_size cat num "AGE" "EDUCATION" = img_size cat num "EDUCATION" "AGE"
  /\ "large" = "large".
Proof.
  destruct (img_size_symmetric srv_ok all cat num "AGE" "EDUCATION")
    as (H1 & H2).
  split; [exact H1 |].
  apply (H2 cold cold "./data/tmp/bivar0_1.png" "./data/tmp/bivar1_0.png"
            "large" "large"
            (mkWorld {[ "./data/tmp/bivar0_1.png" := png ]}
                     [bivar_call "AGE" "EDUCATION"])
            (mkWorld {[ "./data/tmp/bivar1_0.png" := png ]}
                     [bivar_call "EDUCATION" "AGE"]));
    reflexivity.
Defined.

(** C10 at work: a score of 0.75 is refused, a score of 0.25 accepted. *)
Lemma gauge_title_witness :
  (exists fig,
      fst (set_gauge (srv_score (JFloat three_quarters)) 100001 cold) = Ok fig
      /\ fig_title fig = "Crédit non accepté")
  /\ (exists fig,
      fst (set_gauge (srv_score (JFloat quarter)) 100001 cold) = Ok fig
      /\ fig_title fig = "Crédit accepté").
Proof.
  split.
  - destruct (gauge_title (srv_score (JFloat three_quarters)) 100001 cold
                (mkResponse 200 (Some (JObj [("score", JFloat three_quarters)]))
                            [] None)
                (JObj [("score", JFloat three_quarters)]) three_quarters)
      as (fig & Hfig & _ & Ht & _ & _);
      [reflexivity | reflexivity | reflexivity |].
    exists fig. split; [exact Hfig | apply Ht; reflexivity].
  - destruct (gauge_title (srv_score (JFloat quarter)) 100001 cold
                (mkResponse 200 (Some (JObj [("score", JFloat quarter)]))
                            [] None)
                (JObj [("score", JFloat quarter)]) quarter)
      as (fig & Hfig & _ & _ & Ht & _);
      [reflexivity | reflexivity | reflexivity |].
    exists fig. split; [exact Hfig | apply Ht; reflexivity].
Defined.

End Witnesses.

(** ** Where the code departs from the specification *)

Module Counterexamples.
Import Byte Examples.


(** C7 on the failing input. The gauge of client 100001: the one call in
    the log has no timeout. *)
Lemma set_gauge_100001_call :
  calls (snd (set_gauge (srv_score (JFloat three_quarters)) 100001 cold))
  = [mkCall "https://ocp7-dbbackend.herokuapp.com/100001" false [] None].
Proof. vm_compute. reflexivity. Qed.

(** C6 as stated fails. With [max_feat = 3], below the 5 of the slider, and
    a cold store, the fetcher does not fail: it asks the service for 3
    features, stores the answer and returns its path. *)
Lemma out_of_range_max_feat_is_fetched :
  (3 < 5)%Z
  /\ graph_features_global_impact srv_ok 3 cold
     = (Ok "./data/tmp/gfgi_3.png",
        mkWorld {[ "./data/tmp/gfgi_3.png" := png ]}
                [mkCall "https://ocp7-dbbackend.herokuapp.com/global_impact"
                        true [("max_feat", PInt 3)] (Some 30%Z)]).
Proof. split; [reflexivity | vm_compute; reflexivity]. Qed.

End Counterexamples.

(** ** The further properties at work *)

Module MoreWitnesses.
Import Byte Examples.

Lemma cache_keys_injective_witness :
  (20 = 20)%Z /\ (100001 = 100001 /\ 16 = 16)%Z.
Proof.
  destruct cache_keys_injective as (H1 & H2 & _ & _).
  split.
  - apply (H1 20%Z 20%Z). reflexivity.
  - apply (H2 100001%Z 16%Z 100001%Z 16%Z). reflexivity.
Defined.

Lemma call_of_injective_witness : GlobalImpact 20 = GlobalImpact 20.
Proof.
  apply (proj1 (call_of_injective (GlobalImpact 20) (GlobalImpact 20))).
  reflexivity.
Defined.

Lemma store_only_grows_witness :
  files (exec_all srv_ok all cat num st_cache_empty
           [Gauge 100001; BivariatePair "AGE" "INCOME"; GlobalImpact 20] warm)
    !! "./data/tmp/gfgi_20.png" = Some png
  /\ (target_key all (GlobalImpact 3) = Some "./data/tmp/gfgi_3.png"
      /\ files warm !! "./data/tmp/gfgi_3.png" = None).
Proof.
  destruct (store_only_grows srv_ok all cat num st_cache_empty
              [Gauge 100001; BivariatePair "AGE" "INCOME"; GlobalImpact 20]
              warm) as (H1 & H2 & _).
  split.
  - apply H1. reflexivity.
  - apply (H2 (GlobalImpact 3) "./data/tmp/gfgi_3.png"). vm_compute.
    discriminate.
Defined.

Lemma cached_request_stays_cached_witness :
  let w' := exec_all srv_timeout all cat num st_cache_empty
              [SingleFeature 100001 "AGE"; GlobalImpact 3; Gauge 100001] warm in
  files w' !! "./data/tmp/gfgi_20.png" = Some png
  /\ path_returned srv_timeout all cat num (GlobalImpact 20) w'
     = Some "./data/tmp/gfgi_20.png"
  /\ exec srv_timeout all cat num st_cache_empty (GlobalImpact 20) w' = w'.
Proof.
  apply (cached_request_stays_cached srv_timeout all cat num st_cache_empty
           (GlobalImpact 20) "./data/tmp/gfgi_20.png" png warm
           [SingleFeature 100001 "AGE"; GlobalImpact 3; Gauge 100001]);
    reflexivity.
Defined.

Lemma cache_file_identifies_request_witness :
  BivariatePair "AGE" "INCOME" = BivariatePair "AGE" "INCOME"
  /\ path_returned srv_timeout all cat num (BivariatePair "INCOME" "AGE")
       (mkWorld {[ "./data/tmp/bivar0_2.png" := png ]} [])
     = Some "./data/tmp/bivar0_2.png".
Proof.
  destruct (cache_file_identifies_request srv_timeout all cat num
              (BivariatePair "AGE" "INCOME") (BivariatePair "AGE" "INCOME"))
    as (H1 & _ & H3).
  split.
  - apply (H1 "./data/tmp/bivar0_2.png"); reflexivity.
  - apply (H3 "AGE" "INCOME" 0 2
              (mkWorld {[ "./data/tmp/bivar0_2.png" := png ]} []));
      [reflexivity | reflexivity | exists png; reflexivity | reflexivity].
Defined.

Lemma calls_over_a_sequence_witness :
  exists l,
    calls (exec_all srv_ok all cat num st_cache_empty
             [GlobalImpact 20; GlobalImpact 3; GlobalImpact 20] warm)
    = calls warm ++ l
    /\ length l <= 3
    /\ gfgi_call 20 ∉ l.
Proof.
  destruct (calls_over_a_sequence srv_ok all cat num st_cache_empty
              [GlobalImpact 20; GlobalImpact 3; GlobalImpact 20] warm)
    as (l & Hl & Hlen & Hnot).
  exists l. split; [exact Hl | split; [exact Hlen |]].
  apply (Hnot (GlobalImpact 20) "./data/tmp/gfgi_20.png"); [reflexivity |].
  exists png. reflexivity.
Defined.

Lemma one_file_per_pair_witness :
  pair_once
    (exec_all srv_ok all cat num st_cache_empty
       [BivariatePair "AGE" "INCOME"; BivariatePair "INCOME" "AGE"] cold).
Proof.
  apply (one_file_per_pair srv_ok all cat num st_cache_empty).
  intros i j _. left. reflexivity.
Defined.

Lemma call_iff_miss_witness :
  calls (exec srv_ok all cat num st_cache_empty (GlobalImpact 3) warm)
  = calls warm ++ [gfgi_call 3]
  /\ exec srv_ok all cat num st_cache_full IdList warm = warm.
Proof.
  split.
  - apply (proj1 (call_iff_miss srv_ok all cat num st_cache_empty
                    (GlobalImpact 3) warm)).
    reflexivity.
  - apply (proj2 (call_iff_miss srv_ok all cat num st_cache_full IdList warm)).
    discriminate.
Defined.

Lemma raised_request_is_retried_witness :
  let w1 := exec srv_flaky all cat num st_cache_empty (GlobalImpact 20) cold in
  path_returned srv_flaky all cat num (GlobalImpact 20) cold = None
  /\ path_returned srv_flaky all cat num (GlobalImpact 20) w1
     = Some "./data/tmp/gfgi_20.png"
  /\ calls (exec srv_flaky all cat num st_cache_empty (GlobalImpact 20) w1)
     = [gfgi_call 20; gfgi_call 20].
Proof.
  destruct (raised_request_is_retried srv_flaky all cat num st_cache_empty
              (GlobalImpact 20) "./data/tmp/gfgi_20.png" cold Timeout
              (mkResponse 200 None png None))
    as (H1 & _ & _ & H2 & _ & H3); try reflexivity.
  split; [exact H1 | split; [exact H2 | exact H3]].
Defined.


Lemma gauge_on_other_scores_witness :
  (exists fig,
      fst (set_gauge (srv_score (JInt 1)) 100001 cold) = Ok fig
      /\ fig_title fig = "Crédit non accepté")
  /\ fst (set_gauge (srv_score (JStr "0.7")) 100001 cold) = Raise TypeError.
Proof.
  split.
  - destruct (gauge_on_other_scores (srv_score (JInt 1)) 100001 cold
                (mkResponse 200 (Some (JObj [("score", JInt 1)])) [] None)
                [("score", JInt 1)] eq_refl eq_refl) as (H & _).
    destruct (H 1%Z eq_refl) as (fig & Hfig & _ & Ht & _).
    exists fig. split; [exact Hfig |]. apply Ht. discriminate.
  - destruct (gauge_on_other_scores (srv_score (JStr "0.7")) 100001 cold
                (mkResponse 200 (Some (JObj [("score", JStr "0.7")])) [] None)
                [("score", JStr "0.7")] eq_refl eq_refl) as (_ & _ & _ & H).
    apply (H (JStr "0.7")); [reflexivity | exact I].
Defined.

Lemma loaders_return_members_witness :
  fst (load_id_list (srv_member "id_list" (JList [JInt 100001; JInt 100002]))
         cold)
  = Ok (JList [JInt 100001; JInt 100002]).
Proof.
  apply (proj1 (loaders_return_members
                  (srv_member "id_list" (JList [JInt 100001; JInt 100002]))
                  all cat num st_cache_empty cold)).
  exists (mkResponse 200
            (Some (JObj [("id_list", JList [JInt 100001; JInt 100002])]))
            [] None),
         [("id_list", JList [JInt 100001; JInt 100002])].
  repeat split.
Defined.

Lemma menu_filter_is_known_witness :
  exists f,
    issues (feature_menu srv_ok 100001 true "Toutes les features") cold
      [call_of (FeatureSelection 100001 true f)]
    /\ f = "all".
Proof.
  destruct (menu_filter_is_known srv_ok 100001 true "Toutes les features" cold)
    as (f & _ & Hc & _ & _ & Hall).
  exists f. split; [exact Hc | apply Hall; reflexivity].
Defined.

Lemma bivar_section_layout_witness :
  "AGE" <> "EDUCATION"
  /\ (ColumnWidths [3; 1]%Z = ColumnWidths [3; 1]%Z
      <-> ("AGE" ∈ cat /\ "EDUCATION" ∈ num)
          \/ ("AGE" ∈ num /\ "EDUCATION" ∈ cat)).
Proof.
  destruct (bivar_section_layout srv_ok all cat num "AGE" "EDUCATION" cold
              (mkWorld {[ "./data/tmp/bivar0_1.png" := png ]}
                       [bivar_call "AGE" "EDUCATION"])
              (ColumnWidths [3; 1]%Z) "./data/tmp/bivar0_1.png" eq_refl)
    as (H1 & _ & H2 & _).
  split; [exact H1 | exact H2].
Defined.

End MoreWitnesses.
